(** * kmamal/testing: the test runner, embedded and verified

    The development follows [src/runner.js] (class [TestRunner]) and, in
    module [Legacy], the older module-level runner of [src/index.js].

    - JavaScript values are the inductive [JsVal]; numbers are integers
      (all times are whole milliseconds).
    - The local variables of one [runTest] call are the record [locals];
      the closures handed to the test body are functions on a [frame]
      (those locals together with the runner that owns [this.stack]).
    - A test body is a finite strategy tree ([sync_body], [async_body]):
      the context calls it makes, what it does when one of them throws,
      and, once it has returned a promise, the process events that reach
      the runner while it awaits (unhandled rejections, uncaught
      exceptions, the timer of the race).
    - The imported functions [isEqual] and [timeout] and the ECMAScript
      number conversion of strings and objects are the fields of class
      [Platform]; every theorem holds for every platform.
    - What a body does after the timer of its race has expired is not
      part of its execution and is not modelled. *)

From Stdlib Require Import ZArith.
From stdpp Require Import gmap strings list.

Set Warnings "-register-all".
Local Open Scope Z_scope.

(** ** JavaScript values *)

Inductive JsVal : Type :=
| JUndefined
| JNull
| JBool (b : bool)
| JNum (n : Z)
| JStr (s : string)
| JArr (xs : list JsVal)
| JObj (props : list (string * JsVal))
| JError (props : list (string * JsVal)).

(** ToBoolean: [undefined], [null], [false], [0] and [''] are falsy. *)
Definition truthy (v : JsVal) : bool :=
  match v with
  | JUndefined | JNull => false
  | JBool b => b
  | JNum n => negb (n =? 0)
  | JStr s => negb (String.eqb s "")
  | JArr _ | JObj _ | JError _ => true
  end.

(** [a || b] *)
Definition js_or (a b : JsVal) : JsVal := if truthy a then a else b.

Definition nullish (v : JsVal) : bool :=
  match v with JUndefined | JNull => true | _ => false end.

(** The value of [a] after [a ??= b]. *)
Definition nullish_assign (a b : JsVal) : JsVal := if nullish a then b else a.

(** [o.k] on an options object: a missing key reads [undefined]. *)
Definition get (o : gmap string JsVal) (k : string) : JsVal :=
  default JUndefined (o !! k).

(** A parameter [p = d]: the default applies when the argument is
    [undefined]. *)
Definition default_param (p d : JsVal) : JsVal :=
  match p with JUndefined => d | _ => p end.

(** [n !== v] for a number [n]. *)
Definition num_strict_neq (n : Z) (v : JsVal) : bool :=
  match v with JNum m => negb (n =? m) | _ => true end.

(** [v !== null] *)
Definition not_null (v : JsVal) : bool :=
  match v with JNull => false | _ => true end.

(** Property lists keep insertion order; assigning an existing key
    replaces its value in place. *)
Fixpoint assign_prop (k : string) (v : JsVal) (ps : list (string * JsVal))
  : list (string * JsVal) :=
  match ps with
  | [] => [(k, v)]
  | (k', v') :: ps' =>
      if String.eqb k k' then (k, v) :: ps' else (k', v') :: assign_prop k v ps'
  end.

(** [obj.k = v] *)
Definition set_prop (k : string) (v : JsVal) (obj : JsVal) : JsVal :=
  match obj with
  | JError ps => JError (assign_prop k v ps)
  | JObj ps => JObj (assign_prop k v ps)
  | _ => obj
  end.

Fixpoint lookup_prop (k : string) (ps : list (string * JsVal)) : JsVal :=
  match ps with
  | [] => JUndefined
  | (k', v) :: ps' => if String.eqb k k' then v else lookup_prop k ps'
  end.

(** [obj.k] *)
Definition get_prop (k : string) (obj : JsVal) : JsVal :=
  match obj with
  | JError ps | JObj ps => lookup_prop k ps
  | _ => JUndefined
  end.

(** [new Error(msg)] *)
Definition new_Error (msg : string) : JsVal := JError [("message", JStr msg)].

(** The optional [info] argument of the assertions: absent (or otherwise
    falsy), or a plain object given by its properties. *)
Definition info_t : Type := option (list (string * JsVal)).

(** [info && Object.assign(err, info)] *)
Definition assign_info (err : JsVal) (info : info_t) : JsVal :=
  match info with
  | Some ps => fold_left (fun e kv => set_prop kv.1 kv.2 e) ps err
  | None => err
  end.

(** Structural equality of values, used to instantiate [isEqual]. *)
Fixpoint js_eqb (a b : JsVal) : bool :=
  let fix list_eqb (xs ys : list JsVal) : bool :=
    match xs, ys with
    | [], [] => true
    | x :: xs', y :: ys' => js_eqb x y && list_eqb xs' ys'
    | _, _ => false
    end in
  let fix props_eqb (ps qs : list (string * JsVal)) : bool :=
    match ps, qs with
    | [], [] => true
    | (k, x) :: ps', (l, y) :: qs' =>
        String.eqb k l && js_eqb x y && props_eqb ps' qs'
    | _, _ => false
    end in
  match a, b with
  | JUndefined, JUndefined | JNull, JNull => true
  | JBool x, JBool y => Bool.eqb x y
  | JNum x, JNum y => x =? y
  | JStr x, JStr y => String.eqb x y
  | JArr xs, JArr ys => list_eqb xs ys
  | JObj ps, JObj qs | JError ps, JError qs => props_eqb ps qs
  | _, _ => false
  end.

(** How a call ends: it returns, or it throws a value. *)
Inductive completion : Type :=
| Normal
| Thrown (v : JsVal).

(** ** What the runner takes from its platform *)

Class Platform : Type := {
  (** [isEqual] of [@kmamal/util/object/is-equal]: deep equality. *)
  isEqual : JsVal → JsVal → bool;
  (** How the promise [timeout(duration)] of
      [@kmamal/util/promise/timeout] settles once the timer expires: it
      rejects with a value ([Thrown]), or it fulfils ([Normal]). *)
  timeout : JsVal → completion;
  (** ECMAScript ToNumber on strings, arrays and objects ([None] is NaN). *)
  ToNumber_other : JsVal → option Z;
}.

(** ToNumber; [None] is NaN. *)
Definition ToNumber `{Platform} (v : JsVal) : option Z :=
  match v with
  | JUndefined => None
  | JNull => Some 0
  | JBool b => Some (if b then 1 else 0)
  | JNum n => Some n
  | _ => ToNumber_other v
  end.

(** [n > v] for a number [n]: false when [v] converts to NaN. *)
Definition num_gt `{Platform} (n : Z) (v : JsVal) : bool :=
  match ToNumber v with
  | Some m => m <? n
  | None => false
  end.

(** ** The variables of one [runTest] call *)

(** An expected step [[time, ...value]] of a schedule. *)
Definition sched_step : Type := Z * list JsVal.

Definition step_array (s : sched_step) : JsVal := JArr (JNum s.1 :: s.2).

Record locals : Type := mk_locals {
  error : JsVal;
  shouldSortKeys : JsVal;
  duration : JsVal;
  countExpected : JsVal;
  countActual : Z;
  schedule : option (list sched_step);
  startTime : option Z;
}.

Definition set_error (v : JsVal) (l : locals) : locals :=
  mk_locals v (shouldSortKeys l) (duration l) (countExpected l) (countActual l)
    (schedule l) (startTime l).
Definition set_shouldSortKeys (v : JsVal) (l : locals) : locals :=
  mk_locals (error l) v (duration l) (countExpected l) (countActual l)
    (schedule l) (startTime l).
Definition set_duration (v : JsVal) (l : locals) : locals :=
  mk_locals (error l) (shouldSortKeys l) v (countExpected l) (countActual l)
    (schedule l) (startTime l).
Definition set_countExpected (v : JsVal) (l : locals) : locals :=
  mk_locals (error l) (shouldSortKeys l) (duration l) v (countActual l)
    (schedule l) (startTime l).
Definition set_countActual (n : Z) (l : locals) : locals :=
  mk_locals (error l) (shouldSortKeys l) (duration l) (countExpected l) n
    (schedule l) (startTime l).
Definition set_schedule (s : option (list sched_step)) (l : locals) : locals :=
  mk_locals (error l) (shouldSortKeys l) (duration l) (countExpected l)
    (countActual l) s (startTime l).
Definition set_startTime (t : option Z) (l : locals) : locals :=
  mk_locals (error l) (shouldSortKeys l) (duration l) (countExpected l)
    (countActual l) (schedule l) t.

(** The [let] declarations at the top of [runTest]. *)
Definition initial_locals : locals :=
  mk_locals JNull (JBool false) (JNum 500) JNull 0 None None.

(** The constants captured by the [start]/[step] closures that one call
    of [schedule] returns. *)
Record schedule_object : Type := ScheduleObject {
  tollerance : JsVal;
  propagate : JsVal;
}.

(** [startTime] as a number: [null] converts to 0. *)
Definition startTime_num (l : locals) : Z := default 0 (startTime l).

(** [TypeError], thrown when a property of [null] is read. *)
Definition TypeError_null : JsVal :=
  JError [("message", JStr "Cannot read properties of null")].

(** ** Callbacks handed to the assertions *)

(** What calling a user callback [cb()] does. *)
Inductive thunk_result : Type :=
| CbReturns (v : JsVal)      (* returns [v], which is not a promise *)
| CbFulfils                  (* returns a promise that fulfils *)
| CbThrows (e : JsVal)       (* throws [e] *)
| CbRejects (e : JsVal).     (* returns a promise that rejects with [e] *)

(** A callback argument [cb], by its source text [cb.toString()] and by
    what calling it does. *)
Record thunk : Type := Thunk {
  toString : string;
  result : thunk_result;
}.

(** The value caught by [try { cb() } catch (e)]. *)
Definition caught_sync (cb : thunk) : option JsVal :=
  match result cb with CbThrows e => Some e | _ => None end.

(** The value caught by [try { await cb() } catch (e)]. *)
Definition caught_await (cb : thunk) : option JsVal :=
  match result cb with CbThrows e | CbRejects e => Some e | _ => None end.

(** ** Test bodies *)

(** [Invoke c]: the body calls a method of the context.
    [Settle p]: the promise of an earlier [async] method call settles,
    that is, the rest of that method after its [await] runs. *)
Inductive op (C P : Type) : Type :=
| Invoke (c : C)
| Settle (p : P).
Arguments Invoke {C P} c.
Arguments Settle {C P} p.

(** The synchronous part of a body, from the call [callback(ctx)] until
    it returns or throws; and the part that runs while the runner awaits
    the promise the body returned. *)
Inductive sync_body (C P : Type) : Type :=
| SReturn (v : JsVal)
    (* returns [v], which is not a promise *)
| SThrow (v : JsVal)
    (* throws [v] *)
| SCall (c : C) (k : sync_body C P)
    (* calls [c]; an exception of [c] leaves the body *)
| STry (c : C) (k h : sync_body C P)
    (* calls [c] inside [try]: goes on with [k], or with [h] after an exception *)
| STest (name : string) (callback : option (sync_body C P)) (k : sync_body C P)
    (* [t.test(name, callback)] *)
| SPromise (a : async_body C P)
    (* returns a pending promise; [a] happens while it is awaited *)
with async_body (C P : Type) : Type :=
| AFulfil
    (* the promise of the body fulfils *)
| AReject (v : JsVal)
    (* the promise of the body rejects with [v] *)
| ATimer
    (* the timer of the race expires first *)
| ACall (o : op C P) (k : async_body C P)
    (* an exception of [o] rejects the promise of the body *)
| ATry (o : op C P) (k h : async_body C P)
    (* the body catches an exception of [o] and goes on with [h] *)
| AEscape (o : op C P) (k h : async_body C P)
    (* an exception of [o] escapes to the process (thrown in a detached
       callback, or a rejection nobody awaits): the process emits
       [uncaughtException] or [unhandledRejection]; then [h] *)
| ATest (name : string) (callback : option (sync_body C P)) (k : async_body C P)
| AUnhandled (v : JsVal) (k : async_body C P).
    (* [v] reaches the process as an unhandled rejection or an uncaught
       exception from elsewhere *)

Arguments SReturn {C P} v.
Arguments SThrow {C P} v.
Arguments SCall {C P} c k.
Arguments STry {C P} c k h.
Arguments STest {C P} name callback k.
Arguments SPromise {C P} a.
Arguments AFulfil {C P}.
Arguments AReject {C P} v.
Arguments ATimer {C P}.
Arguments ACall {C P} o k.
Arguments ATry {C P} o k h.
Arguments AEscape {C P} o k h.
Arguments ATest {C P} name callback k.
Arguments AUnhandled {C P} v k.

(** What happened during one execution, in order. *)
Inductive event (C P : Type) : Type :=
| EOp (o : op C P)
| ETest (name : string) (callback : option (sync_body C P))
| EHook (v : JsVal).          (* [handleError(v)] ran *)
Arguments EOp {C P} o.
Arguments ETest {C P} name callback.
Arguments EHook {C P} v.

(** What [callback(ctx)] evaluates to. *)
Inductive returned (C P : Type) : Type :=
| Value (v : JsVal)
| Promise (a : async_body C P).
Arguments Value {C P} v.
Arguments Promise {C P} a.

Inductive sync_result (C P : Type) : Type :=
| Returned (r : returned C P)
| Threw (v : JsVal).
Arguments Returned {C P} r.
Arguments Threw {C P} v.

(** How [await Promise.race([promise, timeout(duration)])] ends. *)
Inductive settled : Type :=
| Fulfilled
| Rejected (v : JsVal)
| TimedOut.

(** The number of [test] registrations in a body, nested ones included. *)
Fixpoint sync_size {C P} (b : sync_body C P) : nat :=
  match b with
  | SReturn _ | SThrow _ => 0
  | SCall _ k => sync_size k
  | STry _ k h => sync_size k + sync_size h
  | STest _ cb k =>
      S (match cb with Some b' => sync_size b' | None => 0 end + sync_size k)
  | SPromise a => async_size a
  end%nat
with async_size {C P} (a : async_body C P) : nat :=
  match a with
  | AFulfil | AReject _ | ATimer => 0
  | ACall _ k => async_size k
  | ATry _ k h | AEscape _ k h => async_size k + async_size h
  | ATest _ cb k =>
      S (match cb with Some b' => sync_size b' | None => 0 end + async_size k)
  | AUnhandled _ k => async_size k
  end%nat.

(** ** Running a body against the closures of a runner *)

Section Interp.
Context {C P St : Type}.
(** The part of a context method that runs at the call. *)
Variable invoke : C → St → St * completion.
(** The part of an [async] context method that runs after its [await]. *)
Variable settle : P → St → St * completion.
(** [t.test(name, callback)] *)
Variable test : string → option (sync_body C P) → St → St.
(** The listener installed on the process. *)
Variable handleError : JsVal → St → St.

Definition perform (o : op C P) (st : St) : St * completion :=
  match o with
  | Invoke c => invoke c st
  | Settle p => settle p st
  end.

Definition logged {R : Type} (e : event C P) (x : St * R * list (event C P))
  : St * R * list (event C P) :=
  (x.1.1, x.1.2, e :: x.2).

Fixpoint run_sync (b : sync_body C P) (st : St)
  : St * sync_result C P * list (event C P) :=
  match b with
  | SReturn v => (st, Returned (Value v), [])
  | SThrow v => (st, Threw v, [])
  | SCall c k =>
      match invoke c st with
      | (st1, Normal) => logged (EOp (Invoke c)) (run_sync k st1)
      | (st1, Thrown e) => (st1, Threw e, [EOp (Invoke c)])
      end
  | STry c k h =>
      match invoke c st with
      | (st1, Normal) => logged (EOp (Invoke c)) (run_sync k st1)
      | (st1, Thrown _) => logged (EOp (Invoke c)) (run_sync h st1)
      end
  | STest name cb k => logged (ETest name cb) (run_sync k (test name cb st))
  | SPromise a => (st, Returned (Promise a), [])
  end.

Fixpoint run_async (a : async_body C P) (st : St)
  : St * settled * list (event C P) :=
  match a with
  | AFulfil => (st, Fulfilled, [])
  | AReject v => (st, Rejected v, [])
  | ATimer => (st, TimedOut, [])
  | ACall o k =>
      match perform o st with
      | (st1, Normal) => logged (EOp o) (run_async k st1)
      | (st1, Thrown e) => (st1, Rejected e, [EOp o])
      end
  | ATry o k h =>
      match perform o st with
      | (st1, Normal) => logged (EOp o) (run_async k st1)
      | (st1, Thrown _) => logged (EOp o) (run_async h st1)
      end
  | AEscape o k h =>
      match perform o st with
      | (st1, Normal) => logged (EOp o) (run_async k st1)
      | (st1, Thrown e) =>
          logged (EOp o) (logged (EHook e) (run_async h (handleError e st1)))
      end
  | ATest name cb k => logged (ETest name cb) (run_async k (test name cb st))
  | AUnhandled v k => logged (EHook v) (run_async k (handleError v st))
  end.

(** The state after one event. *)
Definition apply_event (e : event C P) (st : St) : St :=
  match e with
  | EOp o => (perform o st).1
  | ETest name cb => test name cb st
  | EHook v => handleError v st
  end.
End Interp.

(** ** The context object of [src/runner.js] *)

(** A method call [t.m(...)] on the context, or on the object returned
    by [t.schedule]. [now] is what [Date.now()] reads during the call. *)
Inductive call : Type :=
| Expect (n : JsVal)
| Timeout (t : JsVal)
| Schedule (steps : list sched_step) (options : gmap string JsVal)
| Start (now : Z)
| Step (h : schedule_object) (now : Z) (x : list JsVal)
| Ok (value : JsVal) (info : info_t) (sort : JsVal)
| ThrowsNot (cb : thunk) (info : info_t) (sort : JsVal)
| ThrowsNotAsync (cb : thunk) (info : info_t) (sort : JsVal)
| Throws (cb : thunk) (info : info_t) (sort : JsVal)
| ThrowsAsync (cb : thunk) (info : info_t) (sort : JsVal)
| ThrowsWith (cb assert : thunk) (info : info_t) (sort : JsVal)
| ThrowsWithAsync (cb assert : thunk) (info : info_t) (sort : JsVal)
| Equal (actual expected : JsVal) (info : info_t) (sort : JsVal)
| Fail (info : info_t).

(** The promise of an [async] method that was called and is awaited. *)
Inductive pending : Type :=
| PendingThrowsNotAsync (cb : thunk) (info : info_t) (sort : JsVal)
| PendingThrowsAsync (cb : thunk) (info : info_t) (sort : JsVal)
| PendingThrowsWithAsync (cb assert : thunk) (info : info_t) (sort : JsVal).

Abbreviation body := (sync_body call pending).

(** An element of [this.stack]: a path, [null], or [{ name, callback }]. *)
Inductive item : Type :=
| ItemString (path : string)
| ItemNull
| ItemTest (name : string) (callback : option body).

Record TestRunner : Type := Runner {
  countFiles : Z;
  countTests : Z;
  countFailed : Z;
  stack : list item;
  running : bool;
  filesDone : bool;
}.

Definition set_countFiles (n : Z) (r : TestRunner) : TestRunner :=
  Runner n (countTests r) (countFailed r) (stack r) (running r) (filesDone r).
Definition set_countTests (n : Z) (r : TestRunner) : TestRunner :=
  Runner (countFiles r) n (countFailed r) (stack r) (running r) (filesDone r).
Definition set_countFailed (n : Z) (r : TestRunner) : TestRunner :=
  Runner (countFiles r) (countTests r) n (stack r) (running r) (filesDone r).
Definition set_stack (s : list item) (r : TestRunner) : TestRunner :=
  Runner (countFiles r) (countTests r) (countFailed r) s (running r) (filesDone r).
Definition set_running (b : bool) (r : TestRunner) : TestRunner :=
  Runner (countFiles r) (countTests r) (countFailed r) (stack r) b (filesDone r).
Definition set_filesDone (b : bool) (r : TestRunner) : TestRunner :=
  Runner (countFiles r) (countTests r) (countFailed r) (stack r) (running r) b.

(** [new TestRunner()] *)
Definition new_TestRunner : TestRunner := Runner 0 0 0 [] false false.

(** What the closures created by one [runTest] call can reach. *)
Record frame : Type := Frame {
  vars : locals;
  this : TestRunner;
}.

Definition on_vars (f : locals → locals * completion) (fr : frame)
  : frame * completion :=
  (Frame (f (vars fr)).1 (this fr), (f (vars fr)).2).

Module ctx.
Section OnPlatform.
Context `{Platform}.

Definition expect (n : JsVal) (l : locals) : locals * completion :=
  (set_countActual 0 (set_countExpected n l), Normal).

Definition timeout (t : JsVal) (l : locals) : locals * completion :=
  (set_duration t l, Normal).

Definition start (now : Z) (l : locals) : locals * completion :=
  (set_startTime (Some now) l, Normal).

Definition step (h : schedule_object) (now : Z) (x : list JsVal) (l : locals)
  : locals * completion :=
  let elapsed := now - startTime_num l in
  match schedule l with
  | None => (l, Thrown TypeError_null)
  | Some [] =>
      let err := new_Error "no steps left" in
      let err := set_prop "step" (JArr (JNum elapsed :: x)) err in
      (l, Thrown err)
  | Some ((time, value) :: rest) =>
      let l := set_schedule (Some rest) l in
      if negb (isEqual (JArr value) (JArr x)) then
        let err := new_Error "unexpected step" in
        let err := set_prop "expected" (JArr (JNum time :: value)) err in
        let err := set_prop "actual" (JArr (JNum elapsed :: x)) err in
        (l, Thrown err)
      else
        let diff := elapsed - time in
        if num_gt (Z.abs diff) (tollerance h) then
          let err := new_Error "bad timing" in
          let err := set_prop "expected" (JArr (JNum time :: value)) err in
          let err := set_prop "actual" (JArr (JNum elapsed :: x)) err in
          (l, Thrown err)
        else if truthy (propagate h) then
          (set_startTime (Some (startTime_num l + diff)) l, Normal)
        else (l, Normal)
  end.

Definition count (l : locals) : locals := set_countActual (countActual l + 1) l.

Definition sorted (sort : JsVal) (l : locals) : locals :=
  set_shouldSortKeys (default_param sort (JBool false)) l.

Definition ok (value : JsVal) (info : info_t) (sort : JsVal) (l : locals)
  : locals * completion :=
  let l := count l in
  if truthy value then (l, Normal)
  else
    let l := sorted sort l in
    let err := new_Error "not ok" in
    let err := assign_info err info in
    (l, Thrown err).

Definition did_throw (cb : thunk) (info : info_t) (_err : JsVal) : JsVal :=
  let err := new_Error "did throw" in
  let err := assign_info err info in
  let err := set_prop "callback" (JStr (toString cb)) err in
  set_prop "error" _err err.

Definition didnt_throw (cb : thunk) (info : info_t) : JsVal :=
  let err := new_Error "didn't throw" in
  let err := assign_info err info in
  set_prop "callback" (JStr (toString cb)) err.

Definition throwsNot (cb : thunk) (info : info_t) (sort : JsVal) (l : locals)
  : locals * completion :=
  let l := count l in
  match caught_sync cb with
  | Some _err => (sorted sort l, Thrown (did_throw cb info _err))
  | None => (l, Normal)
  end.

Definition throws (cb : thunk) (info : info_t) (sort : JsVal) (l : locals)
  : locals * completion :=
  let l := count l in
  match caught_sync cb with
  | Some _ => (l, Normal)
  | None => (sorted sort l, Thrown (didnt_throw cb info))
  end.

Definition throwsWith (cb assert : thunk) (info : info_t) (sort : JsVal)
    (l : locals) : locals * completion :=
  let l := count l in
  match caught_sync cb with
  | Some expected =>
      match caught_sync assert with
      | Some e => (l, Thrown e)
      | None => (l, Normal)
      end
  | None => (sorted sort l, Thrown (didnt_throw cb info))
  end.

Definition equal (actual expected : JsVal) (info : info_t) (sort : JsVal)
    (l : locals) : locals * completion :=
  let l := count l in
  if isEqual actual expected then (l, Normal)
  else
    let l := sorted sort l in
    let err := new_Error "not equal" in
    let err := assign_info err info in
    let err := set_prop "expected" expected err in
    let err := set_prop "actual" actual err in
    (l, Thrown err).

Definition fail (info : info_t) (l : locals) : locals * completion :=
  let err := new_Error "failed" in
  let err := assign_info err info in
  (l, Thrown err).

(** The [async] methods run up to their [await] when they are called
    and return a promise; a callback that throws at once sends them
    into their [catch] block before anything is awaited. *)
Definition throwsNotAsync (cb : thunk) (info : info_t) (sort : JsVal)
    (l : locals) : locals * completion :=
  let l := count l in
  match result cb with
  | CbThrows _ => (sorted sort l, Normal)
  | _ => (l, Normal)
  end.

Definition throwsNotAsync_rest (cb : thunk) (info : info_t) (sort : JsVal)
    (l : locals) : locals * completion :=
  match result cb with
  | CbReturns _ | CbFulfils => (l, Normal)
  | CbThrows _err => (l, Thrown (did_throw cb info _err))
  | CbRejects _err => (sorted sort l, Thrown (did_throw cb info _err))
  end.

Definition throwsAsync (cb : thunk) (info : info_t) (sort : JsVal)
    (l : locals) : locals * completion :=
  (count l, Normal).

Definition throwsAsync_rest (cb : thunk) (info : info_t) (sort : JsVal)
    (l : locals) : locals * completion :=
  match caught_await cb with
  | Some _ => (l, Normal)
  | None => (sorted sort l, Thrown (didnt_throw cb info))
  end.

Definition throwsWithAsync (cb assert : thunk) (info : info_t) (sort : JsVal)
    (l : locals) : locals * completion :=
  (count l, Normal).

Definition throwsWithAsync_rest (cb assert : thunk) (info : info_t)
    (sort : JsVal) (l : locals) : locals * completion :=
  match caught_await cb with
  | Some expected =>
      match caught_await assert with
      | Some e => (l, Thrown e)
      | None => (l, Normal)
      end
  | None => (sorted sort l, Thrown (didnt_throw cb info))
  end.

(** [this.stack.unshift({ name: _name, callback: _callback })] *)
Definition test (_name : string) (_callback : option body) (fr : frame)
  : frame :=
  Frame (vars fr)
    (set_stack (ItemTest _name _callback :: stack (this fr)) (this fr)).

(** [schedule(steps, options = {})]: the new value of the locals and
    the object with the two closures. *)
Definition schedule (steps : list sched_step) (options : gmap string JsVal)
    (l : locals) : locals * schedule_object :=
  let l := set_schedule (Some steps) l in
  let tollerance := js_or (get options "tollerance") (JNum 20) in
  let propagate := js_or (get options "propagate") (JBool true) in
  (l, ScheduleObject tollerance propagate).
End OnPlatform.
End ctx.

(** ** The process *)

(** The argument [Util.inspect(error, { ..., sorted })] is kept as the
    pair it is computed from; a template string as its text and number. *)
Inductive log_arg : Type :=
| Arg (v : JsVal)
| Inspect (error : JsVal) (sorted : JsVal)
| Template (text : string) (n : Z).

Inductive output : Type :=
| group (label : string)
| groupEnd
| log (args : list log_arg).

(** Listeners are closures; the [handleError] of a [runTest] call is
    named by the number that call gave to the test. *)
Record process : Type := Process {
  unhandledRejection : list Z;
  uncaughtException : list Z;
  console : list output;
  exit_code : option Z;
}.

Definition new_process : process := Process [] [] [] None.

Fixpoint remove_first (h : Z) (l : list Z) : list Z :=
  match l with
  | [] => []
  | x :: l' => if x =? h then l' else x :: remove_first h l'
  end.

(** [process.on(event, h)] appends the listener. *)
Definition on (h : Z) (l : list Z) : list Z := l ++ [h].

(** [process.off(event, h)] removes the instance of [h] added last. *)
Definition off (h : Z) (l : list Z) : list Z :=
  rev (remove_first h (rev l)).

Definition on_handleError (h : Z) (p : process) : process :=
  Process (on h (unhandledRejection p)) (on h (uncaughtException p))
    (console p) (exit_code p).

Definition off_handleError (h : Z) (p : process) : process :=
  Process (off h (unhandledRejection p)) (off h (uncaughtException p))
    (console p) (exit_code p).

Definition write (o : output) (p : process) : process :=
  Process (unhandledRejection p) (uncaughtException p) (console p ++ [o])
    (exit_code p).

Definition exit (code : Z) (p : process) : process :=
  Process (unhandledRejection p) (uncaughtException p) (console p) (Some code).

(** ** [TestRunner] *)

(** What [runTest] resolves to: [{ error, shouldSortKeys }]. *)
Record outcome : Type := Outcome {
  outcome_error : JsVal;
  outcome_shouldSortKeys : JsVal;
}.

Section Runner.
Context `{Platform}.

Definition invoke (c : call) : frame → frame * completion :=
  on_vars
    match c with
    | Expect n => ctx.expect n
    | Timeout t => ctx.timeout t
    | Schedule steps options =>
        fun l => ((ctx.schedule steps options l).1, Normal)
    | Start now => ctx.start now
    | Step h now x => ctx.step h now x
    | Ok value info sort => ctx.ok value info sort
    | ThrowsNot cb info sort => ctx.throwsNot cb info sort
    | ThrowsNotAsync cb info sort => ctx.throwsNotAsync cb info sort
    | Throws cb info sort => ctx.throws cb info sort
    | ThrowsAsync cb info sort => ctx.throwsAsync cb info sort
    | ThrowsWith cb assert info sort => ctx.throwsWith cb assert info sort
    | ThrowsWithAsync cb assert info sort =>
        ctx.throwsWithAsync cb assert info sort
    | Equal actual expected info sort => ctx.equal actual expected info sort
    | Fail info => ctx.fail info
    end.

Definition settle (p : pending) : frame → frame * completion :=
  on_vars
    match p with
    | PendingThrowsNotAsync cb info sort =>
        ctx.throwsNotAsync_rest cb info sort
    | PendingThrowsAsync cb info sort => ctx.throwsAsync_rest cb info sort
    | PendingThrowsWithAsync cb assert info sort =>
        ctx.throwsWithAsync_rest cb assert info sort
    end.

(** [const handleError = (err) => { error ??= err }] *)
Definition handleError (err : JsVal) (fr : frame) : frame :=
  Frame (set_error (nullish_assign (error (vars fr)) err) (vars fr)) (this fr).

(** [if (countExpected !== null && countActual !== countExpected)]:
    the error this statement throws, if it does. *)
Definition count_check (l : locals) : option JsVal :=
  if not_null (countExpected l)
     && num_strict_neq (countActual l) (countExpected l)
  then
    let err := new_Error "wrong number" in
    let err := set_prop "expected" (countExpected l) err in
    let err := set_prop "actual" (JNum (countActual l)) err in
    Some err
  else None.

(** [if (schedule && schedule.length > 0)]: the error this statement
    throws, if it does. *)
Definition schedule_check (l : locals) : option JsVal :=
  match schedule l with
  | Some (s :: rest) =>
      let err := new_Error "missed steps" in
      let err := set_prop "steps" (JArr (map step_array (s :: rest))) err in
      Some err
  | _ => None
  end.

(** The two checks after the body has completed, in their order. *)
Definition post_checks (l : locals) : completion :=
  match count_check l with
  | Some err => Thrown err
  | None =>
      match schedule_check l with
      | Some err => Thrown err
      | None => Normal
      end
  end.

(** [if (promise) { await Promise.race([ promise, timeout(duration) ]) }]:
    a value that is not a promise is either falsy and not awaited, or
    wins the race at once. *)
Definition await_race (promise : returned call pending) (fr : frame)
  : frame * settled * list (event call pending) :=
  match promise with
  | Value _ => (fr, Fulfilled, [])
  | Promise a => run_async invoke settle ctx.test handleError a fr
  end.

(** [const promise = callback({ ... })] and the [await] of the race:
    the frame they leave, the exception they end with if they do not
    complete, and what happened. *)
Definition run_callback (b : body) (fr : frame)
  : frame * completion * list (event call pending) :=
  match run_sync invoke ctx.test b fr with
  | (fr1, Threw v, evs) => (fr1, Thrown v, evs)
  | (fr1, Returned promise, evs) =>
      match await_race promise fr1 with
      | (fr2, Fulfilled, evs') => (fr2, Normal, evs ++ evs')
      | (fr2, Rejected v, evs') => (fr2, Thrown v, evs ++ evs')
      | (fr2, TimedOut, evs') =>
          (fr2, timeout (duration (vars fr1)), evs ++ evs')
      end
  end.

(** The [try] block of [runTest]; a [Thrown] completion reaches the
    [catch] clause. *)
Definition try_block (callback : option body) (fr : frame)
  : frame * completion * list (event call pending) :=
  match callback with
  | None =>
      let fr := Frame (set_error (JStr "NOT IMPLEMENTED") (vars fr)) (this fr) in
      (fr, Thrown (error (vars fr)), [])
  | Some b =>
      match run_callback b fr with
      | (fr1, Normal, evs) => (fr1, post_checks (vars fr1), evs)
      | (fr1, Thrown v, evs) => (fr1, Thrown v, evs)
      end
  end.

(** The frame in which the [try] block of [runTest] starts. *)
Definition enter (r : TestRunner) : frame :=
  Frame initial_locals (set_countTests (countTests r + 1) r).

(** [catch (err) { error ??= err }] *)
Definition catch (c : completion) (fr : frame) : frame :=
  match c with
  | Thrown err => handleError err fr
  | Normal => fr
  end.

Definition runTest (callback : option body) (r : TestRunner) (p : process)
  : TestRunner * process * outcome :=
  let fr := enter r in
  let h := countTests (this fr) in
  let p := on_handleError h p in
  let '(fr, c, _) := try_block callback fr in
  let fr := catch c fr in
  let p := off_handleError h p in
  (this fr, p, Outcome (error (vars fr)) (shouldSortKeys (vars fr))).

(** One turn of the [while] loop of [runTests], after [item] has been
    shifted off the stack. *)
Definition iteration (it : item) (r : TestRunner) (p : process)
  : TestRunner * process :=
  match it with
  | ItemString path => (r, write (group path) p)
  | ItemNull => (r, write (log []) (write groupEnd p))
  | ItemTest name callback =>
      let '(r, p, o) := runTest callback r p in
      if truthy (outcome_error o) then
        let args :=
          [Arg (JStr name); Arg (JStr "->");
           Inspect (outcome_error o) (outcome_shouldSortKeys o)] in
        (set_countFailed (countFailed r + 1) r, write (log args) p)
      else (r, write (log [Arg (JStr name)]) p)
  end.

Fixpoint drain (fuel : nat) (r : TestRunner) (p : process)
  : option (TestRunner * process) :=
  match stack r with
  | [] => Some (r, p)
  | it :: rest =>
      match fuel with
      | O => None
      | S fuel' =>
          let '(r1, p1) := iteration it (set_stack rest r) p in
          drain fuel' r1 p1
      end
  end.

(** What follows the loop; [process.exit] ends the process. *)
Definition after_loop (r : TestRunner) (p : process) : TestRunner * process :=
  if filesDone r then
    let p := write (log [Template "files: " (countFiles r)]) p in
    let p := write (log [Template "tests: " (countTests r)]) p in
    let p := write (log [Template "failed: " (countFailed r)]) p in
    (r, exit (if 0 <? countFailed r then 1 else 0) p)
  else (set_running false r, p).

Definition item_weight (it : item) : nat :=
  match it with
  | ItemTest _ (Some b) => S (sync_size b)
  | _ => 1
  end.

Definition stack_weight (s : list item) : nat :=
  foldr (fun it n => (item_weight it + n)%nat) 0%nat s.

(** [runTests]: the loop needs at most one turn per entry that is on the
    stack or can be registered by a body on it. *)
Definition runTests (r : TestRunner) (p : process)
  : option (TestRunner * process) :=
  match drain (stack_weight (stack r)) r p with
  | Some (r', p') => Some (after_loop r' p')
  | None => None
  end.

(** [appendTest]; the flag tells whether [runTests] was scheduled with
    [process.nextTick]. *)
Definition appendTest (name : string) (callback : option body)
    (r : TestRunner) : TestRunner * bool :=
  let r := set_stack (stack r ++ [ItemTest name callback]) r in
  if running r then (r, false) else (set_running true r, true).

(** [appendFile], for a file whose top level registers [tests]. *)
Definition appendFile (path : string) (tests : list (string * option body))
    (r : TestRunner) : TestRunner :=
  let r := set_countFiles (countFiles r + 1) r in
  let r := set_stack (stack r ++ [ItemString path]) r in
  let r := fold_left (fun r t => (appendTest t.1 t.2 r).1) tests r in
  set_stack (stack r ++ [ItemNull]) r.

(** The names of the tests that were run, in order: the first argument
    of every [console.log] that has one. *)
Definition executed (p : process) : list string :=
  omap (fun o => match o with
                 | log (Arg (JStr name) :: _) => Some name
                 | _ => None
                 end) (console p).
End Runner.

(** ** The module-level runner of [src/index.js] *)

Module Legacy.
(** An expected step [[time, value]]. *)
Definition sched_step : Type := Z * JsVal.

Definition step_array (s : sched_step) : JsVal := JArr [JNum s.1; s.2].

Record locals : Type := mk_locals {
  error : JsVal;
  duration : JsVal;
  count_expected : JsVal;
  count_actual : Z;
  schedule : option (list sched_step);
  start_time : option Z;
}.

Definition set_error (v : JsVal) (l : locals) : locals :=
  mk_locals v (duration l) (count_expected l) (count_actual l) (schedule l)
    (start_time l).
Definition set_duration (v : JsVal) (l : locals) : locals :=
  mk_locals (error l) v (count_expected l) (count_actual l) (schedule l)
    (start_time l).
Definition set_count_expected (v : JsVal) (l : locals) : locals :=
  mk_locals (error l) (duration l) v (count_actual l) (schedule l) (start_time l).
Definition set_count_actual (n : Z) (l : locals) : locals :=
  mk_locals (error l) (duration l) (count_expected l) n (schedule l)
    (start_time l).
Definition set_schedule (s : option (list sched_step)) (l : locals) : locals :=
  mk_locals (error l) (duration l) (count_expected l) (count_actual l) s
    (start_time l).
Definition set_start_time (t : option Z) (l : locals) : locals :=
  mk_locals (error l) (duration l) (count_expected l) (count_actual l)
    (schedule l) t.

Definition initial_locals : locals := mk_locals JNull (JNum 500) JNull 0 None None.

Definition start_time_num (l : locals) : Z := default 0 (start_time l).

Inductive call : Type :=
| Expect (n : JsVal)
| Timeout (t : JsVal)
| Schedule (steps : list sched_step) (options : gmap string JsVal)
| Start (now : Z)
| Step (h : schedule_object) (now : Z) (x : JsVal)
| Ok (value : JsVal) (info : info_t)
| Assert (cb : thunk) (info : info_t)
| Throws (cb : thunk) (info : info_t)
| Equal (actual expected : JsVal) (info : info_t)
| Fail (info : info_t).

Inductive pending : Type :=
| PendingThrows (cb : thunk) (info : info_t).

Abbreviation body := (sync_body call pending).

Inductive item : Type :=
| ItemString (path : string)
| ItemNull
| ItemTest (name : string) (callback : option body).

(** The variables of the module. *)
Record globals : Type := mk_globals {
  count_files : Z;
  count_tests : Z;
  count_failed : Z;
  stack : list item;
  running : bool;
  files_done : bool;
}.

Definition set_count_tests (n : Z) (g : globals) : globals :=
  mk_globals (count_files g) n (count_failed g) (stack g) (running g)
    (files_done g).
Definition set_stack (s : list item) (g : globals) : globals :=
  mk_globals (count_files g) (count_tests g) (count_failed g) s (running g)
    (files_done g).

Definition initial_globals : globals := mk_globals 0 0 0 [] false false.

Record frame : Type := Frame {
  vars : locals;
  module : globals;
}.

Definition on_vars (f : locals → locals * completion) (fr : frame)
  : frame * completion :=
  (Frame (f (vars fr)).1 (module fr), (f (vars fr)).2).

Module ctx.
Section OnPlatform.
Context `{Platform}.

Definition expect (n : JsVal) (l : locals) : locals * completion :=
  (set_count_actual 0 (set_count_expected n l), Normal).

Definition timeout (t : JsVal) (l : locals) : locals * completion :=
  (set_duration t l, Normal).

Definition start (now : Z) (l : locals) : locals * completion :=
  (set_start_time (Some now) l, Normal).

Definition step (h : schedule_object) (now : Z) (x : JsVal) (l : locals)
  : locals * completion :=
  let elapsed := now - start_time_num l in
  match schedule l with
  | None => (l, Thrown TypeError_null)
  | Some [] =>
      let err := new_Error "no steps left" in
      let err := set_prop "step" (JArr [JNum elapsed; x]) err in
      (l, Thrown err)
  | Some ((time, value) :: rest) =>
      let l := set_schedule (Some rest) l in
      if negb (isEqual value x) then
        let err := new_Error "unexpected step" in
        let err := set_prop "expected" (JArr [JNum time; value]) err in
        let err := set_prop "actual" (JArr [JNum elapsed; x]) err in
        (l, Thrown err)
      else
        let diff := elapsed - time in
        if num_gt (Z.abs diff) (tollerance h) then
          let err := new_Error "bad timing" in
          let err := set_prop "expected" (JArr [JNum time; value]) err in
          let err := set_prop "actual" (JArr [JNum elapsed; x]) err in
          (l, Thrown err)
        else if truthy (propagate h) then
          (set_start_time (Some (start_time_num l + diff)) l, Normal)
        else (l, Normal)
  end.

Definition count (l : locals) : locals :=
  set_count_actual (count_actual l + 1) l.

Definition ok (value : JsVal) (info : info_t) (l : locals)
  : locals * completion :=
  let l := count l in
  if truthy value then (l, Normal)
  else (l, Thrown (assign_info (new_Error "not ok") info)).

Definition assert (cb : thunk) (info : info_t) (l : locals)
  : locals * completion :=
  let l := count l in
  match result cb with
  | CbThrows e => (l, Thrown e)
  | CbReturns v =>
      if truthy v then (l, Normal)
      else
        let err := new_Error "assertion failed" in
        let err := assign_info err info in
        (l, Thrown (set_prop "callback" (JStr (toString cb)) err))
  | CbFulfils | CbRejects _ => (l, Normal)
  end.

Definition throws (cb : thunk) (info : info_t) (l : locals)
  : locals * completion :=
  (count l, Normal).

Definition throws_rest (cb : thunk) (info : info_t) (l : locals)
  : locals * completion :=
  match caught_await cb with
  | Some _ => (l, Normal)
  | None =>
      let err := new_Error "didn't throw" in
      let err := assign_info err info in
      (l, Thrown (set_prop "callback" (JStr (toString cb)) err))
  end.

Definition equal (actual expected : JsVal) (info : info_t) (l : locals)
  : locals * completion :=
  let l := count l in
  if isEqual actual expected then (l, Normal)
  else
    let err := new_Error "not equal" in
    let err := assign_info err info in
    let err := set_prop "expected" expected err in
    let err := set_prop "actual" actual err in
    (l, Thrown err).

Definition fail (info : info_t) (l : locals) : locals * completion :=
  (l, Thrown (assign_info (new_Error "failed") info)).

Definition test (_name : string) (_callback : option body) (fr : frame)
  : frame :=
  Frame (vars fr)
    (set_stack (ItemTest _name _callback :: stack (module fr)) (module fr)).

Definition schedule (steps : list sched_step)
    (options : gmap string JsVal) (l : locals) : locals * schedule_object :=
  let l := set_schedule (Some steps) l in
  let tollerance := js_or (get options "tollerance") (JNum 20) in
  let propagate := js_or (get options "propagate") (JBool true) in
  (l, ScheduleObject tollerance propagate).
End OnPlatform.
End ctx.

Section OnPlatform.
Context `{Platform}.

Definition invoke (c : call) : frame → frame * completion :=
  on_vars
    match c with
    | Expect n => ctx.expect n
    | Timeout t => ctx.timeout t
    | Schedule steps options =>
        fun l => ((ctx.schedule steps options l).1, Normal)
    | Start now => ctx.start now
    | Step h now x => ctx.step h now x
    | Ok value info => ctx.ok value info
    | Assert cb info => ctx.assert cb info
    | Throws cb info => ctx.throws cb info
    | Equal actual expected info => ctx.equal actual expected info
    | Fail info => ctx.fail info
    end.

Definition settle (p : pending) : frame → frame * completion :=
  on_vars match p with PendingThrows cb info => ctx.throws_rest cb info end.

(** [const handleError = (err) => { error = error || err }] *)
Definition handleError (err : JsVal) (fr : frame) : frame :=
  Frame (set_error (js_or (error (vars fr)) err) (vars fr)) (module fr).

Definition post_checks (l : locals) : completion :=
  if not_null (count_expected l)
     && num_strict_neq (count_actual l) (count_expected l)
  then
    let err := new_Error "wrong number" in
    let err := set_prop "expected" (count_expected l) err in
    let err := set_prop "actual" (JNum (count_actual l)) err in
    Thrown err
  else
    match schedule l with
    | Some (s :: rest) =>
        let err := new_Error "missed steps" in
        Thrown (set_prop "steps" (JArr (map step_array (s :: rest))) err)
    | _ => Normal
    end.

(** The [if (promise) { ... }] statement of [runTest]. The listener is
    added before the [await]; the two [process.off] calls follow the
    [await] and run only when it does not throw. *)
Definition await_race (h : Z) (promise : returned call pending)
    (fr : frame) (p : process)
  : frame * process * completion * list (event call pending) :=
  match promise with
  | Value v =>
      if truthy v
      then (fr, off_handleError h (on_handleError h p), Normal, [])
      else (fr, p, Normal, [])
  | Promise a =>
      let p := on_handleError h p in
      match run_async invoke settle ctx.test handleError a fr with
      | (fr1, Fulfilled, evs) => (fr1, off_handleError h p, Normal, evs)
      | (fr1, Rejected v, evs) => (fr1, p, Thrown v, evs)
      | (fr1, TimedOut, evs) =>
          match timeout (duration (vars fr)) with
          | Normal => (fr1, off_handleError h p, Normal, evs)
          | Thrown v => (fr1, p, Thrown v, evs)
          end
      end
  end.

Definition try_block (h : Z) (callback : option body) (fr : frame)
    (p : process)
  : frame * process * completion * list (event call pending) :=
  match callback with
  | None =>
      let fr :=
        Frame (set_error (JStr "NOT IMPLEMENTED") (vars fr)) (module fr) in
      (fr, p, Thrown (error (vars fr)), [])
  | Some b =>
      match run_sync invoke ctx.test b fr with
      | (fr1, Threw v, evs) => (fr1, p, Thrown v, evs)
      | (fr1, Returned promise, evs) =>
          match await_race h promise fr1 p with
          | (fr2, p2, Normal, evs') =>
              (fr2, p2, post_checks (vars fr2), evs ++ evs')
          | (fr2, p2, Thrown v, evs') => (fr2, p2, Thrown v, evs ++ evs')
          end
      end
  end.

(** [catch (err) { error = error || err }] *)
Definition catch (c : completion) (fr : frame) : frame :=
  match c with
  | Thrown err => handleError err fr
  | Normal => fr
  end.

(** [runTest] resolves to [error]. *)
Definition runTest (callback : option body) (g : globals) (p : process)
  : globals * process * JsVal :=
  let g := set_count_tests (count_tests g + 1) g in
  let '(fr, p, c, _) :=
    try_block (count_tests g) callback (Frame initial_locals g) p in
  let fr := catch c fr in
  (module fr, p, error (vars fr)).
End OnPlatform.
End Legacy.

(** ** Reading an execution *)

(** The values delivered to [handleError], in order. *)
Definition hooks {C P} (evs : list (event C P)) : list JsVal :=
  omap (fun e => match e with EHook v => Some v | _ => None end) evs.

(** The [test] registrations, in order. *)
Definition registered {C P} (evs : list (event C P))
  : list (string * option (sync_body C P)) :=
  omap (fun e => match e with ETest n cb => Some (n, cb) | _ => None end) evs.

(** The methods that start with [countActual += 1]. *)
Definition counts (c : call) : bool :=
  match c with
  | Ok _ _ _ | ThrowsNot _ _ _ | ThrowsNotAsync _ _ _ | Throws _ _ _
  | ThrowsAsync _ _ _ | ThrowsWith _ _ _ _ | ThrowsWithAsync _ _ _ _
  | Equal _ _ _ _ => true
  | _ => false
  end.

Definition is_expect (e : event call pending) : bool :=
  match e with EOp (Invoke (Expect _)) => true | _ => false end.

Definition is_assertion (e : event call pending) : bool :=
  match e with EOp (Invoke c) => counts c | _ => false end.

(** The number of counted assertion calls among the events. *)
Definition assertions (evs : list (event call pending)) : Z :=
  Z.of_nat (length (filter (fun e => is_assertion e = true) evs)).

(** [countExpected] and [countActual] after one more event. *)
Definition count_event (cs : JsVal * Z) (e : event call pending) : JsVal * Z :=
  match e with
  | EOp (Invoke (Expect n)) => (n, 0)
  | _ => if is_assertion e then (cs.1, cs.2 + 1) else cs
  end.

(** [error] after one more event: only [handleError] writes it. *)
Definition error_event (err : JsVal) (e : event call pending) : JsVal :=
  match e with EHook v => nullish_assign err v | _ => err end.

(** [this.stack] after one more event: only [test] writes it. *)
Definition stack_event (s : list item) (e : event call pending) : list item :=
  match e with ETest n cb => ItemTest n cb :: s | _ => s end.

(** What an event does to the runner. *)
Definition this_event (r : TestRunner) (e : event call pending) : TestRunner :=
  set_stack (stack_event (stack r) e) r.

(** [schedule] after one more event: [schedule(steps)] replaces it, every
    [step] removes the first step that is left. *)
Definition schedule_event (s : option (list sched_step))
    (e : event call pending) : option (list sched_step) :=
  match e with
  | EOp (Invoke (Schedule steps _)) => Some steps
  | EOp (Invoke (Step _ _ _)) => tail <$> s
  | _ => s
  end.

(** The weight that the registrations among the events put on the
    stack (see [item_weight]). *)
Definition event_weight {C P} (e : event C P) : nat :=
  match e with
  | ETest _ (Some b) => S (sync_size b)
  | ETest _ None => 1
  | _ => 0
  end.

Definition events_weight {C P} (evs : list (event C P)) : nat :=
  foldr (fun e n => (event_weight e + n)%nat) 0%nat evs.

Definition pending_size {C P} (res : sync_result C P) : nat :=
  match res with
  | Returned (Promise a) => async_size a
  | _ => 0%nat
  end.

(** The value of [error] after the values [vs] have been offered to
    [error ??= v] in order, starting from [null]. *)
Definition first_wins (vs : list JsVal) : JsVal :=
  fold_left nullish_assign vs JNull.

(** The exception that reaches the [catch] clause, if any. *)
Definition raised (c : completion) : list JsVal :=
  match c with Thrown v => [v] | Normal => [] end.

(** [frame] with [t] below everything that is on the stack. *)
Definition above (t : list item) (fr : frame) : frame :=
  Frame (vars fr) (set_stack (stack (this fr) ++ t) (this fr)).

(** *** The merge rule in the words of the specification

    "precedence order, first non-null wins: body's own exception, then
    capture-hook error, then post-check errors". *)
Definition spec_merge (own hook post : JsVal) : JsVal :=
  if not_null own then own else if not_null hook then hook else post.

Definition first_non_null (vs : list JsVal) : JsVal :=
  default JNull (head (filter (fun v => not_null v = true) vs)).

Section SpecMerge.
Context `{Platform}.

(** The three error sources of the execution of [b] started by [r]. *)
Definition own_exception (b : body) (r : TestRunner) : JsVal :=
  first_non_null (raised (run_callback b (enter r)).1.2).

Definition hook_error (b : body) (r : TestRunner) : JsVal :=
  first_non_null (hooks (run_callback b (enter r)).2).

Definition post_check_error (b : body) (r : TestRunner) : JsVal :=
  match run_callback b (enter r) with
  | (fr, Normal, _) => first_non_null (raised (post_checks (vars fr)))
  | _ => JNull
  end.

Definition spec_outcome_error (b : body) (r : TestRunner) : JsVal :=
  spec_merge (own_exception b r) (hook_error b r) (post_check_error b r).
End SpecMerge.

(** The line that [runTests] prints for a test that passed, and no
    change of [countFailed]. *)
Definition reported_as_passed `{Platform} (name : string)
    (callback : option body) (r : TestRunner) (p : process) : Prop :=
  countFailed (iteration (ItemTest name callback) r p).1 = countFailed r
  ∧ console (iteration (ItemTest name callback) r p).2
    = console p ++ [log [Arg (JStr name)]].

(** ** Concrete inputs *)

(** Structural equality for [isEqual], a timeout that rejects with an
    [Error], and NaN for every string and object. *)
Definition node : Platform :=
  {| isEqual := js_eqb;
     timeout := fun _ => Thrown (new_Error "timeout");
     ToNumber_other := fun _ => None |}.

Definition background : JsVal := new_Error "background".
Definition own : JsVal := new_Error "own".

(** [async () => { Promise.reject(background); await later; throw own }] *)
Definition rejects_after_unhandled : body :=
  SPromise (AUnhandled background (AReject own)).

(** [async () => { Promise.reject(background); await later; throw 0 }] *)
Definition rejects_zero_after_unhandled : body :=
  SPromise (AUnhandled background (AReject (JNum 0))).

(** [(t) => { t.expect(1); t.schedule([ [ 0, 'x' ] ]) }] *)
Definition expects_one_and_misses_a_step : body :=
  SCall (Expect (JNum 1))
    (SCall (Schedule [(0, [JStr "x"])] ∅) (SReturn JUndefined)).

(** [(t) => { t.expect(2); t.ok(true); t.equal(1, 1) }] *)
Definition two_assertions : body :=
  SCall (Expect (JNum 2))
    (SCall (Ok (JBool true) None JUndefined)
       (SCall (Equal (JNum 1) (JNum 1) None JUndefined) (SReturn JUndefined))).

(** [(t) => { const s = t.schedule([ [ 0, 'x' ], [ 100, 'y' ] ]); s.start();
    s.step('x') }], all at time 1000. *)
Definition one_step_of_two : body :=
  SCall (Schedule [(0, [JStr "x"]); (100, [JStr "y"])] ∅)
    (SCall (Start 1000)
       (SCall (Step (ScheduleObject (JNum 20) (JBool true)) 1000 [JStr "x"])
          (SReturn JUndefined))).

(** [(t) => { t.test('nested', undefined) }] *)
Definition registers_nested : body :=
  STest "nested" None (SReturn JUndefined).

(** [(t) => { t.expect(2); t.ok(true) }] *)
Definition one_assertion_of_two : body :=
  SCall (Expect (JNum 2))
    (SCall (Ok (JBool true) None JUndefined) (SReturn JUndefined)).

(** [(t) => { t.fail() }] *)
Definition fails : body := SCall (Fail None) (SReturn JUndefined).

(** [() => { throw 0 }] *)
Definition throws_zero : body := SThrow (JNum 0).

(** [async () => { throw 0 }] *)
Definition rejects_zero : body := SPromise (AReject (JNum 0)).

(** The object returned by [t.schedule(steps)] without options. *)
Definition default_schedule : schedule_object :=
  ScheduleObject (JNum 20) (JBool true).

(** The locals after [t.schedule([ [ 0, 'x' ], [ 100, 'y' ] ])] and
    [start()] at time 1000. *)
Definition started : locals :=
  set_startTime (Some 1000)
    (set_schedule (Some [(0, [JStr "x"]); (100, [JStr "y"])]) initial_locals).

(** The same locals once both steps have been taken. *)
Definition exhausted : locals := set_schedule (Some []) started.

(** A runner with the tests A, which registers a nested test, and B. *)
Definition runner_A_B : TestRunner :=
  set_stack [ItemTest "A" (Some registers_nested);
             ItemTest "B" (Some two_assertions)] new_TestRunner.

(** [async () => { throw own }] for the runner of [src/index.js]. *)
Definition legacy_rejects : Legacy.body := SPromise (AReject own).

(** ** The rest of the runner *)

(** [finish], called while no loop of [runTests] is suspended:
    [this.filesDone = true; this.runTests()]. *)
Definition finish `{Platform} (r : TestRunner) (p : process)
  : option (TestRunner * process) :=
  runTests (set_filesDone true r) p.

(** The loop of [runTests], started with runner [r] and process [p],
    ends with [r'] and [p']. *)
Definition drained `{Platform} (r : TestRunner) (p : process)
    (r' : TestRunner) (p' : process) : Prop :=
  ∃ fuel, drain fuel r p = Some (r', p').

Definition is_test (it : item) : bool :=
  match it with ItemTest _ _ => true | _ => false end.

Definition test_names (s : list item) : list string :=
  omap (fun it => match it with ItemTest name _ => Some name | _ => None end) s.

(** A line that [runTests] prints for a test. *)
Definition is_test_line (o : output) : bool :=
  match o with log (Arg (JStr _) :: _) => true | _ => false end.

(** The names on the lines that carry an error. *)
Definition failures (p : process) : list string :=
  omap (fun o => match o with
                 | log (Arg (JStr name) :: _ :: _) => Some name
                 | _ => None
                 end) (console p).

(** Several [step] calls in a row, whatever each of them does: the
    observations are pairs of the time of the call and its arguments. *)
Definition take_steps `{Platform} (h : schedule_object)
    (observed : list (Z * list JsVal)) (l : locals) : locals :=
  fold_left (fun l o => (ctx.step h o.1 o.2 l).1) observed l.

(** [duration] after one more event: only [timeout] writes it. *)
Definition duration_event (d : JsVal) (e : event call pending) : JsVal :=
  match e with EOp (Invoke (Timeout t)) => t | _ => d end.

(** Whether the [info] object has the key [k]. *)
Definition has_key (k : string) (info : info_t) : bool :=
  match info with
  | Some ps => existsb (fun kv => String.eqb k kv.1) ps
  | None => false
  end.

(** The value of [error] after the values [vs] have been offered to
    [error = error || v] in order, starting from [null]. *)
Definition first_truthy (vs : list JsVal) : JsVal := fold_left js_or vs JNull.

(** [error] of [src/index.js] after one more event: only [handleError]
    writes it. *)
Definition legacy_error_event (err : JsVal)
    (e : event Legacy.call Legacy.pending) : JsVal :=
  match e with EHook v => js_or err v | _ => err end.

(** [(t) => { t.timeout(100); return new Promise(() => {}) }] *)
Definition sets_timeout_and_hangs : body :=
  SCall (Timeout (JNum 100)) (SPromise ATimer).

(** * Properties *)

(** ** Executions, event by event *)

Section InterpFacts.
Context {C P St : Type}.
Variable invoke : C → St → St * completion.
Variable settle : P → St → St * completion.
Variable test : string → option (sync_body C P) → St → St.
Variable handleError : JsVal → St → St.

Local Abbreviation run_s := (run_sync invoke test).
Local Abbreviation run_a := (run_async invoke settle test handleError).
Local Abbreviation after := (apply_event invoke settle test handleError).

Lemma logged_state {R} e (x : St * R * list (event C P)) :
  (logged e x).1.1 = x.1.1.
Proof. reflexivity. Qed.

Lemma logged_result {R} e (x : St * R * list (event C P)) :
  (logged e x).1.2 = x.1.2.
Proof. reflexivity. Qed.

Lemma logged_events {R} e (x : St * R * list (event C P)) :
  (logged e x).2 = e :: x.2.
Proof. reflexivity. Qed.

(** The state that a run leaves is the state after its events. *)
Lemma run_sync_events b : ∀ st,
  (run_s b st).1.1 = fold_left (fun s e => after e s) (run_s b st).2 st.
Proof.
  induction b as [v|v|c k IHk|c k IHk h IHh|name cb k IHk|a]; intros st;
    cbn [run_sync]; try reflexivity.
  - destruct (invoke c st) as [st1 [|e]] eqn:E.
    + rewrite logged_state, logged_events, IHk. cbn. by rewrite E.
    + cbn. by rewrite E.
  - destruct (invoke c st) as [st1 [|e]] eqn:E;
      rewrite logged_state, logged_events, ?IHk, ?IHh; cbn; by rewrite E.
  - by rewrite logged_state, logged_events, IHk.
Qed.

Lemma run_async_events a : ∀ st,
  (run_a a st).1.1
  = fold_left (fun s e => after e s) (run_a a st).2 st.
Proof.
  induction a as [|v| |o k IHk|o k IHk h IHh|o k IHk h IHh|name cb k IHk|v k IHk];
    intros st; cbn [run_async]; try reflexivity.
  - destruct (perform invoke settle o st) as [st1 [|e]] eqn:E.
    + rewrite logged_state, logged_events, IHk. cbn. by rewrite E.
    + cbn. by rewrite E.
  - destruct (perform invoke settle o st) as [st1 [|e]] eqn:E;
      rewrite logged_state, logged_events, ?IHk, ?IHh; cbn; by rewrite E.
  - destruct (perform invoke settle o st) as [st1 [|e]] eqn:E.
    + rewrite logged_state, logged_events, IHk. cbn. by rewrite E.
    + rewrite !logged_state, !logged_events, IHh. cbn. by rewrite E.
  - by rewrite logged_state, logged_events, IHk.
  - by rewrite logged_state, logged_events, IHk.
Qed.

(** A view [f] of the state that every event changes by [g] is, after
    a run, the fold of [g] over the events. *)
Lemma fold_view {A} (f : St → A) (g : A → event C P → A) :
  (∀ e st, f (after e st) = g (f st) e) →
  ∀ evs st, f (fold_left (fun s e => after e s) evs st)
            = fold_left g evs (f st).
Proof.
  intros Hstep evs. induction evs as [|e evs IH]; intros st; cbn; [done|].
  by rewrite IH, Hstep.
Qed.

(** No event reaches [handleError] before the body has returned. *)
Lemma run_sync_no_hooks b : ∀ st, hooks (run_s b st).2 = [].
Proof.
  induction b as [v|v|c k IHk|c k IHk h IHh|name cb k IHk|a]; intros st;
    cbn [run_sync]; try reflexivity.
  - destruct (invoke c st) as [st1 [|e]]; [|done].
    rewrite logged_events. apply IHk.
  - destruct (invoke c st) as [st1 [|e]]; rewrite logged_events;
      [apply IHk|apply IHh].
  - rewrite logged_events. apply IHk.
Qed.

(** A change [phi] of the state that commutes with every step commutes
    with a run. *)
Section Commute.
Variable phi : St → St.
Hypothesis invoke_phi : ∀ c st,
  invoke c (phi st) = (phi (invoke c st).1, (invoke c st).2).
Hypothesis settle_phi : ∀ p st,
  settle p (phi st) = (phi (settle p st).1, (settle p st).2).
Hypothesis test_phi : ∀ n cb st, test n cb (phi st) = phi (test n cb st).
Hypothesis handleError_phi : ∀ v st,
  handleError v (phi st) = phi (handleError v st).

Lemma run_sync_commute b : ∀ st,
  run_s b (phi st)
  = (phi (run_s b st).1.1, (run_s b st).1.2, (run_s b st).2).
Proof.
  induction b as [v|v|c k IHk|c k IHk h IHh|name cb k IHk|a]; intros st;
    cbn [run_sync]; try reflexivity.
  - rewrite invoke_phi. destruct (invoke c st) as [st1 [|e]]; cbn; [|done].
    by rewrite IHk.
  - rewrite invoke_phi. destruct (invoke c st) as [st1 [|e]]; cbn;
      by rewrite ?IHk, ?IHh.
  - by rewrite test_phi, IHk.
Qed.

Lemma perform_phi o st :
  perform invoke settle o (phi st)
  = (phi (perform invoke settle o st).1, (perform invoke settle o st).2).
Proof. destruct o; cbn; [apply invoke_phi|apply settle_phi]. Qed.

Lemma run_async_commute a : ∀ st,
  run_a a (phi st)
  = (phi (run_a a st).1.1, (run_a a st).1.2, (run_a a st).2).
Proof.
  induction a as [|v| |o k IHk|o k IHk h IHh|o k IHk h IHh|name cb k IHk|v k IHk];
    intros st; cbn [run_async]; try reflexivity.
  - rewrite perform_phi.
    destruct (perform invoke settle o st) as [st1 [|e]]; cbn; [|done].
    by rewrite IHk.
  - rewrite perform_phi.
    destruct (perform invoke settle o st) as [st1 [|e]]; cbn;
      by rewrite ?IHk, ?IHh.
  - rewrite perform_phi.
    destruct (perform invoke settle o st) as [st1 [|e]]; cbn.
    + by rewrite IHk.
    + by rewrite handleError_phi, IHh.
  - by rewrite test_phi, IHk.
  - by rewrite handleError_phi, IHk.
Qed.
End Commute.
End InterpFacts.

(** ** The options of a schedule *)

Lemma get_insert_eq (o : gmap string JsVal) k v : get (<[k:=v]> o) k = v.
Proof. unfold get. by rewrite lookup_insert_eq. Qed.

Lemma get_insert_ne (o : gmap string JsVal) k k' v :
  k ≠ k' → get (<[k:=v]> o) k' = get o k'.
Proof. intros Hne. unfold get. by rewrite lookup_insert_ne. Qed.

Lemma get_delete_eq (o : gmap string JsVal) k : get (delete k o) k = JUndefined.
Proof. unfold get. by rewrite lookup_delete_eq. Qed.


Lemma js_or_falsy a b : truthy a = false → js_or a b = b.
Proof. unfold js_or. by intros ->. Qed.

(** C10. The tolerance of a schedule is [options.tollerance || 20], read
    from the misspelled key, in [src/runner.js] and in [src/index.js]
    alike: adding the key [tolerance] to any options object changes
    nothing, with only that key the tolerance is 20, and [tollerance: 0]
    gives 20 as well. *)
Theorem tollerance_reads_the_misspelled_key
    (steps : list sched_step) (steps' : list Legacy.sched_step)
    (options : gmap string JsVal) (v : JsVal) (l : locals) (l' : Legacy.locals) :
  (tollerance (ctx.schedule steps options l).2
     = js_or (get options "tollerance") (JNum 20)
   ∧ tollerance (ctx.schedule steps (<["tolerance" := v]> options) l).2
     = tollerance (ctx.schedule steps options l).2
   ∧ tollerance
       (ctx.schedule steps (<["tolerance" := v]> (delete "tollerance" options)) l).2
     = JNum 20
   ∧ tollerance (ctx.schedule steps (<["tollerance" := JNum 0]> options) l).2
     = JNum 20)
  ∧ (tollerance (Legacy.ctx.schedule steps' options l').2
     = js_or (get options "tollerance") (JNum 20)
   ∧ tollerance (Legacy.ctx.schedule steps' (<["tolerance" := v]> options) l').2
     = tollerance (Legacy.ctx.schedule steps' options l').2
   ∧ tollerance
       (Legacy.ctx.schedule steps'
          (<["tolerance" := v]> (delete "tollerance" options)) l').2
     = JNum 20
   ∧ tollerance
       (Legacy.ctx.schedule steps' (<["tollerance" := JNum 0]> options) l').2
     = JNum 20).
Proof.
  unfold ctx.schedule, Legacy.ctx.schedule; cbn.
  rewrite !get_insert_eq, !(get_insert_ne _ "tolerance" "tollerance") by done.
  rewrite get_delete_eq. done.
Qed.

(** ** The closures [start] and [step] *)

Section Schedule.
Context `{Platform}.


(** C5. On a schedule that still has steps, [step] takes the first one,
    [[time, ...value]], off the schedule whatever follows; it throws
    "unexpected step" with both arrays when [value] is not deep-equal
    to the observed values; otherwise it throws "bad timing" with both
    arrays when [|elapsed - time| > tollerance]; otherwise it returns.
    The schedule starts as the declared steps in their order, and
    without options the tolerance is 20. *)
Theorem step_checks_value_then_timing
    (h : schedule_object) (now : Z) (x : list JsVal) (l : locals)
    (time : Z) (value : list JsVal) (rest : list sched_step) :
  schedule l = Some ((time, value) :: rest) →
  let elapsed := now - startTime_num l in
  let expected := JArr (JNum time :: value) in
  let actual := JArr (JNum elapsed :: x) in
  schedule (ctx.step h now x l).1 = Some rest
  ∧ (ctx.step h now x l).2 =
      (if negb (isEqual (JArr value) (JArr x)) then
         Thrown (JError [("message", JStr "unexpected step");
                         ("expected", expected); ("actual", actual)])
       else if num_gt (Z.abs (elapsed - time)) (tollerance h) then
         Thrown (JError [("message", JStr "bad timing");
                         ("expected", expected); ("actual", actual)])
       else Normal)
  ∧ (∀ steps options l0,
       schedule (ctx.schedule steps options l0).1 = Some steps)
  ∧ (∀ steps l0, tollerance (ctx.schedule steps ∅ l0).2 = JNum 20)
  ∧ (∀ d t, num_gt d (JNum t) = (t <? d)).
Proof.
  intros Hs. cbn zeta. unfold ctx.step. rewrite Hs.
  split; [|split; [|split; [|split]]]; try done.
  - destruct (negb _); [done|]. destruct (num_gt _ _); [done|].
    by destruct (truthy _).
  - destruct (negb _); [done|]. destruct (num_gt _ _); [done|].
    by destruct (truthy _).
Qed.
End Schedule.

(** ** One execution *)

Section Execution.
Context `{Platform}.

Local Abbreviation after := (apply_event invoke settle ctx.test handleError).

Local Ltac crush_method :=
  repeat match goal with
         | |- context [match ?x with _ => _ end] => destruct x
         | |- context [if ?b then _ else _] => destruct b
         end; try reflexivity.

(** The context methods write neither [error] nor the runner. *)
Lemma invoke_error c fr : error (vars (invoke c fr).1) = error (vars fr).
Proof.
  destruct c; cbn; try reflexivity;
    unfold ctx.step, ctx.ok, ctx.throwsNot, ctx.throwsNotAsync, ctx.throws,
      ctx.throwsWith, ctx.equal; crush_method.
Qed.

Lemma settle_error p fr : error (vars (settle p fr).1) = error (vars fr).
Proof.
  destruct p; cbn;
    unfold ctx.throwsNotAsync_rest, ctx.throwsAsync_rest,
      ctx.throwsWithAsync_rest; crush_method.
Qed.

Lemma error_view e fr :
  error (vars (after e fr)) = error_event (error (vars fr)) e.
Proof.
  destruct e as [[c|p]| |]; cbn; [apply invoke_error|apply settle_error|done..].
Qed.

Lemma set_stack_same r : set_stack (stack r) r = r.
Proof. by destruct r. Qed.

Lemma this_view e fr : this (after e fr) = this_event (this fr) e.
Proof.
  destruct e as [[c|p]| |]; cbn; unfold this_event; cbn;
    by rewrite ?set_stack_same.
Qed.

Lemma count_view e fr :
  (countExpected (vars (after e fr)), countActual (vars (after e fr)))
  = count_event (countExpected (vars fr), countActual (vars fr)) e.
Proof.
  destruct e as [[c|p]| |]; cbn; try reflexivity.
  - destruct c; cbn; try reflexivity;
      unfold ctx.step, ctx.ok, ctx.throwsNot, ctx.throwsNotAsync, ctx.throws,
        ctx.throwsWith, ctx.equal; crush_method.
  - destruct p; cbn;
      unfold ctx.throwsNotAsync_rest, ctx.throwsAsync_rest,
        ctx.throwsWithAsync_rest; crush_method.
Qed.

Lemma schedule_view e fr :
  schedule (vars (after e fr)) = schedule_event (schedule (vars fr)) e.
Proof.
  destruct e as [[c|p]| |]; cbn; try reflexivity.
  - destruct c; cbn; try reflexivity;
      unfold ctx.step, ctx.ok, ctx.throwsNot, ctx.throwsNotAsync, ctx.throws,
        ctx.throwsWith, ctx.equal;
      try (destruct (schedule (vars fr)) as [[|[time value] rest]|] eqn:E; cbn;
           rewrite ?E; [reflexivity| |reflexivity]);
      crush_method.
  - destruct p; cbn;
      unfold ctx.throwsNotAsync_rest, ctx.throwsAsync_rest,
        ctx.throwsWithAsync_rest; crush_method.
Qed.

(** The frame that [run_callback] leaves is the frame after its events. *)
Lemma run_callback_events b fr :
  (run_callback b fr).1.1 = fold_left (fun s e => after e s) (run_callback b fr).2 fr.
Proof.
  unfold run_callback.
  pose proof (run_sync_events invoke settle ctx.test handleError b fr) as Hs.
  destruct (run_sync invoke ctx.test b fr) as [[fr1 [promise|v]] evs];
    cbn in Hs; [|by cbn].
  unfold await_race. destruct promise as [v|a].
  { cbn. by rewrite app_nil_r. }
  pose proof (run_async_events invoke settle ctx.test handleError a fr1) as Ha.
  destruct (run_async _ _ _ _ a fr1) as [[fr2 [|v|]] evs']; cbn in Ha; cbn;
    by rewrite fold_left_app, <- Hs.
Qed.

Lemma fold_error_event evs : ∀ a,
  fold_left error_event evs a = fold_left nullish_assign (hooks evs) a.
Proof.
  induction evs as [|[o|n cb|v] evs IH]; intros a; cbn; auto.
Qed.

(** [error] when the callback is left: what the hook has recorded. *)
Lemma run_callback_error b r :
  error (vars (run_callback b (enter r)).1.1)
  = first_wins (hooks (run_callback b (enter r)).2).
Proof.
  rewrite run_callback_events.
  rewrite (fold_view invoke settle ctx.test handleError
             (fun fr => error (vars fr)) error_event error_view).
  apply fold_error_event.
Qed.

Lemma run_callback_counts b r :
  (countExpected (vars (run_callback b (enter r)).1.1),
   countActual (vars (run_callback b (enter r)).1.1))
  = fold_left count_event (run_callback b (enter r)).2 (JNull, 0).
Proof.
  rewrite run_callback_events.
  by rewrite (fold_view invoke settle ctx.test handleError
                (fun fr => (countExpected (vars fr), countActual (vars fr)))
                count_event count_view).
Qed.

Lemma run_callback_schedule b r :
  schedule (vars (run_callback b (enter r)).1.1)
  = fold_left schedule_event (run_callback b (enter r)).2 None.
Proof.
  rewrite run_callback_events.
  by rewrite (fold_view invoke settle ctx.test handleError
                (fun fr => schedule (vars fr)) schedule_event schedule_view).
Qed.

Lemma run_callback_this b fr :
  this (run_callback b fr).1.1
  = fold_left this_event (run_callback b fr).2 (this fr).
Proof.
  rewrite run_callback_events.
  by rewrite (fold_view invoke settle ctx.test handleError this this_event
                this_view).
Qed.

(** A synchronous throw leaves [error] as it was initialised. *)
Lemma run_callback_sync_throw b fr fr1 v evs :
  run_sync invoke ctx.test b fr = (fr1, Threw v, evs) →
  run_callback b fr = (fr1, Thrown v, evs) ∧ hooks evs = [].
Proof.
  intros E. unfold run_callback. rewrite E. split; [done|].
  pose proof (run_sync_no_hooks invoke ctx.test b fr) as Hn.
  by rewrite E in Hn.
Qed.

(** ** The listeners *)

Lemma remove_first_head h l : remove_first h (h :: l) = l.
Proof. cbn. by rewrite Z.eqb_refl. Qed.

Lemma off_on h l : off h (on h l) = l.
Proof.
  unfold off, on. rewrite rev_app_distr. cbn [rev app].
  by rewrite remove_first_head, rev_involutive.
Qed.

Lemma off_on_handleError h p : off_handleError h (on_handleError h p) = p.
Proof.
  destruct p. unfold off_handleError, on_handleError.
  cbn [unhandledRejection uncaughtException console exit_code].
  by rewrite !off_on.
Qed.

(** [runTest], unfolded once. *)
Lemma runTest_unfold callback r p :
  runTest callback r p
  = let t := try_block callback (enter r) in
    let fr := catch t.1.2 t.1.1 in
    (this fr, p, Outcome (error (vars fr)) (shouldSortKeys (vars fr))).
Proof.
  unfold runTest. cbn zeta.
  destruct (try_block callback (enter r)) as [[fr c] evs]. cbn [fst snd].
  by rewrite off_on_handleError.
Qed.

(** Whatever the callback is and however its execution ends, [runTest]
    leaves the listeners of the process as it found them. *)
Lemma runTest_removes_its_listeners callback r p :
  (runTest callback r p).1.2 = p.
Proof. by rewrite runTest_unfold. Qed.
End Execution.

(** ** The outcome of one execution *)

Section Outcome.
Context `{Platform}.

Lemma fold_nullish_assign_kept vs : ∀ a,
  nullish a = false → fold_left nullish_assign vs a = a.
Proof.
  induction vs as [|v vs IH]; intros a Ha; cbn; [done|].
  unfold nullish_assign at 2. rewrite Ha. by apply IH.
Qed.

Lemma first_wins_first pre v post :
  forallb nullish pre = true → nullish v = false →
  first_wins (pre ++ v :: post) = v.
Proof.
  unfold first_wins. intros Hpre Hv. rewrite fold_left_app. cbn.
  assert (Hn : nullish (fold_left nullish_assign pre JNull) = true).
  { generalize JNull (eq_refl : nullish JNull = true).
    induction pre as [|u pre IH]; intros a Ha; cbn; [done|].
    cbn in Hpre. apply andb_true_iff in Hpre as [Hu Hpre].
    apply IH; [done|]. unfold nullish_assign. by rewrite Ha. }
  unfold nullish_assign at 2. rewrite Hn. by apply fold_nullish_assign_kept.
Qed.

Lemma runTest_error callback r p :
  outcome_error (runTest callback r p).2
  = first_wins (hooks (try_block callback (enter r)).2
                ++ raised (try_block callback (enter r)).1.2).
Proof.
  rewrite runTest_unfold. cbn zeta. cbn [snd outcome_error].
  destruct callback as [b|]; [|reflexivity].
  unfold try_block.
  pose proof (run_callback_error b r) as He.
  unfold first_wins in *.
  destruct (run_callback b (enter r)) as [[fr [|v]] evs];
    cbn [fst snd] in *; rewrite fold_left_app, <- He.
  - by destruct (post_checks (vars fr)).
  - reflexivity.
Qed.

(** C2, amended. The error of the outcome is the first value that is
    not [null] or [undefined] among the values in the order in which
    they are recorded: those delivered to the capture hook while the
    promise of the body is awaited, then the one exception that ends the
    [try] block (the throw or rejection of the body or the timeout; or,
    when the race was won without exception, the error of the count
    check, else that of the schedule check). A recorded error is never
    replaced; an exception that the body throws before it returns is the
    first to be recorded. *)
Theorem error_is_the_first_recorded
    (callback : option body) (r : TestRunner) (p : process) :
  let t := try_block callback (enter r) in
  let recorded := hooks t.2 ++ raised t.1.2 in
  outcome_error (runTest callback r p).2 = first_wins recorded
  ∧ (∀ pre v post,
       recorded = pre ++ v :: post →
       forallb nullish pre = true → nullish v = false →
       outcome_error (runTest callback r p).2 = v)
  ∧ (∀ b fr v evs,
       callback = Some b →
       run_sync invoke ctx.test b (enter r) = (fr, Threw v, evs) →
       outcome_error (runTest callback r p).2 = v)
  ∧ (∀ b,
       callback = Some b →
       let run := run_callback b (enter r) in
       t.2 = run.2
       ∧ t.1.2 = match run.1.2 with
                 | Thrown v => Thrown v
                 | Normal =>
                     match count_check (vars run.1.1) with
                     | Some err => Thrown err
                     | None =>
                         match schedule_check (vars run.1.1) with
                         | Some err => Thrown err
                         | None => Normal
                         end
                     end
                 end).
Proof.
  cbn zeta. split; [apply runTest_error|split; [|split]].
  - intros pre v post E Hpre Hv. rewrite runTest_error, E.
    by apply first_wins_first.
  - intros b fr v evs -> E. rewrite runTest_error.
    apply run_callback_sync_throw in E as [E Hh].
    unfold try_block. rewrite E. cbn [fst snd]. by rewrite Hh.
  - intros b ->. unfold try_block.
    by destruct (run_callback b (enter r)) as [[fr [|v]] evs].
Qed.

(** C8. Without a callback the error of the outcome is "NOT IMPLEMENTED":
    for every runner and process, and from whatever values the local
    variables start. No context call happens, the stack keeps its
    entries, the sort flag stays [false], and the listeners are gone. *)
Theorem absent_callback_is_not_implemented (r : TestRunner) (p : process) :
  runTest None r p
  = (set_countTests (countTests r + 1) r, p,
     Outcome (JStr "NOT IMPLEMENTED") (JBool false))
  ∧ (∀ fr : frame,
       error (vars (catch (try_block None fr).1.2 (try_block None fr).1.1))
       = JStr "NOT IMPLEMENTED"
       ∧ (try_block None fr).2 = []
       ∧ this (try_block None fr).1.1 = this fr).
Proof.
  split; [by rewrite runTest_unfold|]. intros fr. by cbn.
Qed.

(** [src/runner.js]: after [runTest] both events have the listeners they
    had before, whatever the callback does. *)
Lemma runTest_leaves_no_listener callback r p :
  unhandledRejection (runTest callback r p).1.2 = unhandledRejection p
  ∧ uncaughtException (runTest callback r p).1.2 = uncaughtException p.
Proof. by rewrite runTest_removes_its_listeners. Qed.

(** C4, for [src/index.js]: when the promise of the body rejects, the
    two [process.off] calls after the [await] are skipped, and [runTest]
    returns with [handleError] still listening to both events. *)
Theorem legacy_runTest_leaves_listeners_after_a_rejection
    (g : Legacy.globals) (p : process) :
  let h := Legacy.count_tests g + 1 in
  let p' := (Legacy.runTest (Some legacy_rejects) g p).1.2 in
  (Legacy.runTest (Some legacy_rejects) g p).2 = own
  ∧ unhandledRejection p' = unhandledRejection p ++ [h]
  ∧ uncaughtException p' = uncaughtException p ++ [h].
Proof. done. Qed.

(** The same runner removes them when the promise fulfils. *)
Lemma legacy_runTest_removes_listeners_after_fulfilment
    (g : Legacy.globals) (p : process) :
  (Legacy.runTest (Some (SPromise AFulfil)) g p).1.2 = p.
Proof.
  unfold Legacy.runTest, Legacy.try_block, Legacy.await_race.
  cbn -[off_handleError on_handleError]. by rewrite off_on_handleError.
Qed.

Lemma assertions_cons e post :
  assertions (e :: post) = (if is_assertion e then 1 else 0) + assertions post.
Proof.
  unfold assertions. rewrite filter_cons.
  destruct (is_assertion e) eqn:E;
    [rewrite decide_True by done|rewrite decide_False by done];
    cbn [length]; lia.
Qed.

Lemma fold_count_event_after_expect post : ∀ ce ca,
  forallb (fun e => negb (is_expect e)) post = true →
  fold_left count_event post (ce, ca) = (ce, ca + assertions post).
Proof.
  induction post as [|e post IH]; intros ce ca Hp.
  { change (assertions []) with 0. by rewrite Z.add_0_r. }
  cbn [forallb] in Hp. apply andb_true_iff in Hp as [He Hp].
  assert (Hc : count_event (ce, ca) e
               = (ce, if is_assertion e then ca + 1 else ca)).
  { destruct e as [[[]|]| |]; try done. }
  cbn [fold_left]. rewrite Hc, IH, assertions_cons by done.
  destruct (is_assertion e); f_equal; lia.
Qed.

(** C7. [expect(n)] stores [n] and sets the counter of assertions to 0.
    When the body has completed, having called [expect(n)] and after
    that [m] of the counted assertion methods (and [expect] no more),
    the counter is [m]; the count check throws nothing when [m = n], and
    otherwise throws "wrong number" with [expected = n] and
    [actual = m], which is the error of the outcome unless an error was
    recorded before. *)
Theorem expect_counts_the_assertions_after_it :
  (∀ n l, countActual (ctx.expect n l).1 = 0
          ∧ countExpected (ctx.expect n l).1 = n)
  ∧ (∀ b r p fr evs pre post n,
       run_callback b (enter r) = (fr, Normal, evs) →
       evs = pre ++ EOp (Invoke (Expect (JNum n))) :: post →
       forallb (fun e => negb (is_expect e)) post = true →
       let m := assertions post in
       let wrong_number :=
         JError [("message", JStr "wrong number");
                 ("expected", JNum n); ("actual", JNum m)] in
       countActual (vars fr) = m
       ∧ (m = n → count_check (vars fr) = None)
       ∧ (m ≠ n →
          count_check (vars fr) = Some wrong_number
          ∧ (nullish (error (vars fr)) = true →
             outcome_error (runTest (Some b) r p).2 = wrong_number))).
Proof.
  split; [done|]. intros b r p fr evs pre post n E -> Hpost. cbn zeta.
  pose proof (run_callback_counts b r) as Hc. rewrite E in Hc. cbn in Hc.
  rewrite fold_left_app in Hc. cbn [fold_left count_event] in Hc.
  rewrite fold_count_event_after_expect in Hc by done.
  injection Hc as Hce Hca. rewrite Z.add_0_l in Hca.
  split; [done|]. unfold count_check. rewrite Hce, Hca. cbn.
  split.
  - intros ->. by rewrite Z.eqb_refl.
  - intros Hne. apply Z.eqb_neq in Hne. rewrite Hne. cbn. split; [done|].
    intros Hn. rewrite runTest_unfold. unfold try_block. rewrite E.
    cbn [fst snd]. unfold post_checks, count_check. rewrite Hce, Hca. cbn.
    rewrite Hne. cbn. unfold nullish_assign. by rewrite Hn.
Qed.
End Outcome.

Section Outcome2.
Context `{Platform}.

(** The process after [runTest] of [src/index.js], path by path: the
    listeners stay exactly when the awaited race rejects. *)
Lemma legacy_runTest_process callback g p :
  let g1 := Legacy.set_count_tests (Legacy.count_tests g + 1) g in
  let fr := Legacy.Frame Legacy.initial_locals g1 in
  (Legacy.runTest callback g p).1.2
  = match callback with
    | None => p
    | Some b =>
        match run_sync Legacy.invoke Legacy.ctx.test b fr with
        | (_, Threw _, _) | (_, Returned (Value _), _) => p
        | (fr1, Returned (Promise a), _) =>
            match run_async Legacy.invoke Legacy.settle Legacy.ctx.test
                    Legacy.handleError a fr1 with
            | (_, Fulfilled, _) => p
            | (_, Rejected _, _) => on_handleError (Legacy.count_tests g1) p
            | (_, TimedOut, _) =>
                match timeout (Legacy.duration (Legacy.vars fr1)) with
                | Normal => p
                | Thrown _ => on_handleError (Legacy.count_tests g1) p
                end
            end
        end
    end.
Proof.
  cbn zeta. unfold Legacy.runTest, Legacy.try_block.
  destruct callback as [b|]; [|done].
  destruct (run_sync _ _ b _) as [[fr1 [[v|a]|v]] evs]; [| |done].
  - unfold Legacy.await_race.
    destruct (truthy v); cbn [fst snd]; [|done].
    by rewrite off_on_handleError.
  - unfold Legacy.await_race.
    destruct (run_async _ _ _ _ a fr1) as [[fr2 [|v|]] evs'];
      cbn [fst snd]; try done; [|destruct (timeout _); cbn [fst snd]; [|done]];
      by rewrite off_on_handleError.
Qed.

(** C6, amended. [step] on a schedule without steps left throws
    "no steps left" with [[elapsed, ...observed]]. When the body has
    completed with steps left on the schedule, while the count check
    passes and no error has been recorded, the error of the outcome is
    "missed steps" with exactly the steps that are left: the steps of
    the last [schedule] call without one step for every [step] call
    since. *)
Theorem missed_steps_when_nothing_failed_before :
  (∀ h now x l,
     schedule l = Some [] →
     ctx.step h now x l
     = (l, Thrown (JError [("message", JStr "no steps left");
                           ("step", JArr (JNum (now - startTime_num l) :: x))])))
  ∧ (∀ b r p fr evs s rest,
       run_callback b (enter r) = (fr, Normal, evs) →
       schedule (vars fr) = Some (s :: rest) →
       count_check (vars fr) = None →
       nullish (error (vars fr)) = true →
       outcome_error (runTest (Some b) r p).2
       = JError [("message", JStr "missed steps");
                 ("steps", JArr (map step_array (s :: rest)))]
       ∧ fold_left schedule_event evs None = Some (s :: rest)).
Proof.
  split.
  - intros h now x l Hs. unfold ctx.step. by rewrite Hs.
  - intros b r p fr evs s rest E Hs Hc Hn. split.
    + rewrite runTest_unfold. unfold try_block. rewrite E. cbn [fst snd].
      unfold post_checks, schedule_check. rewrite Hc, Hs. cbn.
      unfold nullish_assign. by rewrite Hn.
    + pose proof (run_callback_schedule b r) as Hv. rewrite E in Hv.
      cbn in Hv. by rewrite <- Hv.
Qed.

(** C9, amended. When the body throws a falsy value before it returns,
    or its promise rejects with a falsy value while no error has been
    recorded, that value is the error of the outcome; [runTests] then
    prints the name alone and does not increment [countFailed]. *)
Theorem falsy_exception_passes (name : string) (b : body)
    (r : TestRunner) (p : process) (fr : frame) (v : JsVal)
    (evs : list (event call pending)) :
  truthy v = false →
  (run_sync invoke ctx.test b (enter r) = (fr, Threw v, evs) →
   outcome_error (runTest (Some b) r p).2 = v
   ∧ reported_as_passed name (Some b) r p)
  ∧ (run_callback b (enter r) = (fr, Thrown v, evs) →
     nullish (error (vars fr)) = true →
     outcome_error (runTest (Some b) r p).2 = v
     ∧ reported_as_passed name (Some b) r p).
Proof.
  intros Hv.
  assert (Hpass : outcome_error (runTest (Some b) r p).2 = v →
                  reported_as_passed name (Some b) r p).
  { rewrite runTest_unfold. cbn zeta. cbn [snd outcome_error]. intros Ho.
    unfold reported_as_passed, iteration. rewrite runTest_unfold. cbn zeta.
    cbn [outcome_error outcome_shouldSortKeys]. rewrite Ho, Hv.
    split; [|done]. cbn [fst].
    assert (Hf : ∀ evs r0, countFailed (fold_left this_event evs r0)
                           = countFailed r0).
    { clear. induction evs as [|e evs IH]; intros r0; cbn; [done|].
      by rewrite IH. }
    assert (Hc : ∀ c fr0, this (catch c fr0) = this fr0) by by intros [].
    rewrite Hc. unfold try_block.
    pose proof (run_callback_this b (enter r)) as Ht.
    destruct (run_callback b (enter r)) as [[fr1 [|w]] evs1];
      cbn [fst snd] in *; by rewrite Ht, Hf. }
  split.
  - intros E. apply run_callback_sync_throw in E as [E Hh].
    assert (Ho : outcome_error (runTest (Some b) r p).2 = v).
    { rewrite runTest_error. unfold try_block. rewrite E. cbn [fst snd].
      by rewrite Hh. }
    auto.
  - intros E Hn.
    assert (Ho : outcome_error (runTest (Some b) r p).2 = v).
    { rewrite runTest_unfold. unfold try_block. rewrite E. cbn.
      unfold nullish_assign. by rewrite Hn. }
    auto.
Qed.
End Outcome2.

(** ** The stack and the loop of [runTests] *)

Section StackWeight.
Context {C P St : Type}.
Variable invoke : C → St → St * completion.
Variable settle : P → St → St * completion.
Variable test : string → option (sync_body C P) → St → St.
Variable handleError : JsVal → St → St.

Lemma events_weight_app (evs evs' : list (event C P)) :
  events_weight (evs ++ evs') = (events_weight evs + events_weight evs')%nat.
Proof.
  induction evs as [|e evs IH]; cbn; [done|].
  fold (events_weight (evs ++ evs')). fold (events_weight evs). lia.
Qed.

(** A body registers at most as many tests as it contains. *)
Lemma run_sync_weight b : ∀ st,
  (events_weight (run_sync invoke test b st).2
   + pending_size (run_sync invoke test b st).1.2 ≤ sync_size b)%nat.
Proof.
  induction b as [v|v|c k IHk|c k IHk h IHh|name cb k IHk|a]; intros st;
    cbn [run_sync sync_size]; try (cbn; lia).
  - destruct (invoke c st) as [st1 [|e]]; [|cbn; lia].
    rewrite logged_events, logged_result. cbn. apply IHk.
  - destruct (invoke c st) as [st1 [|e]]; rewrite logged_events, logged_result;
      cbn; [specialize (IHk st1)|specialize (IHh st1)];
      unfold events_weight in *; lia.
  - rewrite logged_events, logged_result. specialize (IHk (test name cb st)).
    destruct cb; cbn; unfold events_weight in *; lia.
Qed.

Lemma run_async_weight a : ∀ st,
  (events_weight (run_async invoke settle test handleError a st).2
   ≤ async_size a)%nat.
Proof.
  induction a as [|v| |o k IHk|o k IHk h IHh|o k IHk h IHh|name cb k IHk|v k IHk];
    intros st; cbn [run_async async_size]; try (cbn; lia).
  - destruct (perform invoke settle o st) as [st1 [|e]]; [|cbn; lia].
    rewrite logged_events. cbn. apply IHk.
  - destruct (perform invoke settle o st) as [st1 [|e]]; rewrite logged_events;
      cbn; [specialize (IHk st1)|specialize (IHh st1)];
      unfold events_weight in *; lia.
  - destruct (perform invoke settle o st) as [st1 [|e]]; rewrite ?logged_events;
      cbn; [specialize (IHk st1)|specialize (IHh (handleError e st1))];
      unfold events_weight in *; lia.
  - rewrite logged_events. specialize (IHk (test name cb st)).
    destruct cb; cbn; unfold events_weight in *; lia.
  - rewrite logged_events. cbn. apply IHk.
Qed.
End StackWeight.

Section Drain.
Context `{Platform}.

Lemma stack_set_stack s r : stack (set_stack s r) = s.
Proof. done. Qed.

Lemma set_stack_set_stack s s' r : set_stack s (set_stack s' r) = set_stack s r.
Proof. done. Qed.

Lemma stack_weight_app s t :
  stack_weight (s ++ t) = (stack_weight s + stack_weight t)%nat.
Proof.
  induction s as [|it s IH]; cbn; [done|].
  fold (stack_weight (s ++ t)). fold (stack_weight s). lia.
Qed.

Lemma invoke_above t c fr :
  invoke c (above t fr) = (above t (invoke c fr).1, (invoke c fr).2).
Proof. done. Qed.

Lemma settle_above t p fr :
  settle p (above t fr) = (above t (settle p fr).1, (settle p fr).2).
Proof. done. Qed.

Lemma test_above t n cb fr : ctx.test n cb (above t fr) = above t (ctx.test n cb fr).
Proof. done. Qed.

Lemma handleError_above t v fr :
  handleError v (above t fr) = above t (handleError v fr).
Proof. done. Qed.

(** What lies below on the stack does not matter to an execution, and
    stays where it is. *)
Lemma run_callback_above t b fr :
  run_callback b (above t fr)
  = (above t (run_callback b fr).1.1, (run_callback b fr).1.2,
     (run_callback b fr).2).
Proof.
  unfold run_callback.
  rewrite (run_sync_commute invoke ctx.test (above t) (invoke_above t)
             (test_above t)).
  destruct (run_sync invoke ctx.test b fr) as [[fr1 [[v|a]|v]] evs];
    cbn [fst snd]; try done.
  unfold await_race.
  rewrite (run_async_commute invoke settle ctx.test handleError (above t)
             (invoke_above t) (settle_above t) (test_above t)
             (handleError_above t)).
  by destruct (run_async _ _ _ _ a fr1) as [[fr2 [|v|]] evs'].
Qed.

Lemma runTest_above t callback s r p :
  runTest callback (set_stack (s ++ t) r) p
  = (set_stack (stack (runTest callback (set_stack s r) p).1.1 ++ t)
       (runTest callback (set_stack s r) p).1.1,
     (runTest callback (set_stack s r) p).1.2,
     (runTest callback (set_stack s r) p).2).
Proof.
  rewrite !runTest_unfold. cbn zeta.
  change (enter (set_stack (s ++ t) r)) with (above t (enter (set_stack s r))).
  generalize (enter (set_stack s r)). intros fr.
  destruct callback as [b|]; [|done].
  unfold try_block. rewrite run_callback_above.
  destruct (run_callback b fr) as [[fr1 [|v]] evs]; cbn [fst snd]; [|done].
  change (vars (above t fr1)) with (vars fr1).
  by destruct (post_checks (vars fr1)).
Qed.

Lemma iteration_above t it s r p :
  iteration it (set_stack (s ++ t) r) p
  = (set_stack (stack (iteration it (set_stack s r) p).1 ++ t)
       (iteration it (set_stack s r) p).1,
     (iteration it (set_stack s r) p).2).
Proof.
  destruct it as [path| |name callback]; try done.
  unfold iteration. rewrite runTest_above.
  destruct (runTest callback (set_stack s r) p) as [[r1 p1] o].
  cbn [fst snd]. by destruct (truthy (outcome_error o)).
Qed.

(** The stack after an execution: the registered tests, last one first,
    on top of what was there. *)
Lemma fold_stack_event evs : ∀ s,
  fold_left stack_event evs s
  = rev (map (fun t => ItemTest t.1 t.2) (registered evs)) ++ s.
Proof.
  induction evs as [|[o|n cb|v] evs IH]; intros s; cbn; auto.
  rewrite IH. by rewrite <- app_assoc.
Qed.

Lemma fold_this_event evs : ∀ r,
  fold_left this_event evs r = set_stack (fold_left stack_event evs (stack r)) r.
Proof.
  induction evs as [|e evs IH]; intros r; cbn; [by destruct r|].
  rewrite IH. by destruct r.
Qed.

Lemma stack_weight_registered (evs : list (event call pending)) :
  stack_weight (rev (map (fun t => ItemTest t.1 t.2) (registered evs)))
  = events_weight evs.
Proof.
  induction evs as [|[o|n cb|v] evs IH]; [done|exact IH| |exact IH].
  change (registered (ETest n cb :: evs)) with ((n, cb) :: registered evs).
  change (events_weight (ETest n cb :: evs))
    with (event_weight (ETest (C:=call) (P:=pending) n cb)
          + events_weight evs)%nat.
  rewrite map_cons. cbn [rev]. rewrite stack_weight_app. rewrite IH.
  destruct cb; cbn; lia.
Qed.

Lemma run_callback_weight b fr :
  (events_weight (run_callback b fr).2 ≤ sync_size b)%nat.
Proof.
  unfold run_callback.
  pose proof (run_sync_weight invoke ctx.test b fr) as Hs.
  destruct (run_sync invoke ctx.test b fr) as [[fr1 [[v|a]|v]] evs];
    cbn [fst snd pending_size] in *; try lia.
  - cbn [await_race fst snd]. rewrite app_nil_r. lia.
  - unfold await_race.
    pose proof (run_async_weight invoke settle ctx.test handleError a fr1) as Ha.
    destruct (run_async _ _ _ _ a fr1) as [[fr2 [|v|]] evs'];
      cbn [fst snd] in *; rewrite events_weight_app; lia.
Qed.

(** The runner that [runTest] returns. *)
Lemma runTest_this callback r p :
  (runTest callback r p).1.1
  = set_stack
      (rev (map (fun t => ItemTest t.1 t.2)
              (registered (try_block callback (enter r)).2)) ++ stack r)
      (set_countTests (countTests r + 1) r).
Proof.
  rewrite runTest_unfold. cbn zeta. cbn [fst].
  assert (Hc : ∀ c fr0, this (catch c fr0) = this fr0) by by intros [].
  rewrite Hc. destruct callback as [b|]; [|by destruct r].
  unfold try_block.
  pose proof (run_callback_this b (enter r)) as Ht.
  destruct (run_callback b (enter r)) as [[fr1 [|w]] evs];
    cbn [fst snd] in *; rewrite Ht, fold_this_event, fold_stack_event; done.
Qed.

Lemma try_block_weight callback fr :
  (events_weight (try_block callback fr).2
   < item_weight (ItemTest "" callback))%nat.
Proof.
  destruct callback as [b|]; cbn [item_weight]; [|cbn; lia].
  unfold try_block. pose proof (run_callback_weight b fr) as Hw.
  destruct (run_callback b fr) as [[fr1 [|w]] evs]; cbn [fst snd] in *; lia.
Qed.

(** One turn of the loop makes the stack lighter. *)
Lemma iteration_weight it rest r p :
  (stack_weight (stack (iteration it (set_stack rest r) p).1)
   < stack_weight (it :: rest))%nat.
Proof.
  destruct it as [path| |name callback]; [cbn; lia..|].
  cbn [stack_weight foldr]. fold (stack_weight rest).
  unfold iteration.
  pose proof (runTest_this callback (set_stack rest r) p) as Ht.
  pose proof (try_block_weight callback (enter (set_stack rest r))) as Hw.
  destruct (runTest callback (set_stack rest r) p) as [[r1 p1] o].
  cbn [fst] in Ht. subst r1.
  assert (Hs : ∀ s n r0, stack (set_countFailed n (set_stack s r0)) = s)
    by done.
  destruct (truthy (outcome_error o)); cbn [fst]; rewrite ?Hs, ?stack_set_stack;
    rewrite stack_weight_app, stack_weight_registered; cbn in *; lia.
Qed.
End Drain.

Section Loop.
Context `{Platform}.

Lemma drain_nil n r p : stack r = [] → drain n r p = Some (r, p).
Proof. intros E. destruct n; cbn; by rewrite E. Qed.

Lemma drain_cons n it rest r p :
  stack r = it :: rest →
  drain (S n) r p
  = drain n (iteration it (set_stack rest r) p).1
      (iteration it (set_stack rest r) p).2.
Proof.
  intros E. cbn [drain]. rewrite E.
  by destruct (iteration it (set_stack rest r) p).
Qed.

Lemma drain_Some_cons n it rest r p x :
  stack r = it :: rest → drain n r p = Some x →
  ∃ n', n = S n'
        ∧ drain n' (iteration it (set_stack rest r) p).1
            (iteration it (set_stack rest r) p).2 = Some x.
Proof.
  intros E Hd. destruct n as [|n'].
  - cbn in Hd. by rewrite E in Hd.
  - exists n'. split; [done|]. by rewrite <- (drain_cons _ _ _ _ _ E).
Qed.

Lemma item_weight_pos it : (1 ≤ item_weight it)%nat.
Proof. destruct it as [| |? []]; cbn; lia. Qed.

(** The loop ends: the weight of the stack is fuel enough. *)
Lemma drain_total n : ∀ r p,
  (stack_weight (stack r) ≤ n)%nat → ∃ x, drain n r p = Some x.
Proof.
  induction n as [|n IH]; intros r p Hw.
  - destruct (stack r) as [|it rest] eqn:E; [by rewrite drain_nil; eauto|].
    cbn in Hw. pose proof (item_weight_pos it). lia.
  - destruct (stack r) as [|it rest] eqn:E; [by rewrite drain_nil; eauto|].
    rewrite (drain_cons _ _ _ _ _ E). apply IH.
    pose proof (iteration_weight it rest r p). lia.
Qed.

Lemma drain_mono n : ∀ m r p x,
  drain n r p = Some x → (n ≤ m)%nat → drain m r p = Some x.
Proof.
  induction n as [|n IH]; intros m r p x Hd Hle.
  - destruct (stack r) as [|it rest] eqn:E.
    + rewrite drain_nil in Hd |- * by done. done.
    + cbn in Hd. by rewrite E in Hd.
  - destruct (stack r) as [|it rest] eqn:E.
    + rewrite drain_nil in Hd |- * by done. done.
    + destruct m as [|m]; [lia|].
      rewrite (drain_cons _ _ _ _ _ E) in Hd. rewrite (drain_cons _ _ _ _ _ E).
      apply IH; [done|lia].
Qed.

Lemma drain_deterministic n m r p x y :
  drain n r p = Some x → drain m r p = Some y → x = y.
Proof.
  intros Hx Hy.
  apply (drain_mono _ (n + m)) in Hx; [|lia].
  apply (drain_mono _ (n + m)) in Hy; [|lia]. congruence.
Qed.

(** Draining what is on top first, then the rest. *)
Lemma drain_app n : ∀ r p r1 p1 t m x,
  drain n r p = Some (r1, p1) →
  drain m (set_stack t r1) p1 = Some x →
  drain (n + m) (set_stack (stack r ++ t) r) p = Some x.
Proof.
  induction n as [|n IH]; intros r p r1 p1 t m x Hd Hm.
  - destruct (stack r) as [|it rest] eqn:E.
    + rewrite drain_nil in Hd by done. injection Hd as <- <-. done.
    + cbn in Hd. by rewrite E in Hd.
  - destruct (stack r) as [|it rest] eqn:E.
    + rewrite drain_nil in Hd by done. injection Hd as <- <-.
      cbn [app]. apply (drain_mono m); [done|lia].
    + rewrite (drain_cons _ _ _ _ _ E) in Hd.
      cbn [Nat.add app]. rewrite (drain_cons _ it (rest ++ t)) by done.
      rewrite set_stack_set_stack, iteration_above. cbn [fst snd].
      by apply (IH _ _ r1 p1).
Qed.

Lemma drain_through n r p x s t :
  stack r = s ++ t → drain n r p = Some x →
  ∃ k m r1 p1,
    drain k (set_stack s r) p = Some (r1, p1)
    ∧ drain m (set_stack t r1) p1 = Some x.
Proof.
  intros E Hd.
  destruct (drain_total (stack_weight s) (set_stack s r) p) as [[r1 p1] H1];
    [done|].
  destruct (drain_total (stack_weight t) (set_stack t r1) p1) as [y H2];
    [done|].
  exists (stack_weight s), (stack_weight t), r1, p1. split; [done|].
  pose proof (drain_app _ _ _ _ _ _ _ _ H1 H2) as Happ.
  rewrite stack_set_stack, set_stack_set_stack, <- E, set_stack_same in Happ.
  by rewrite (drain_deterministic _ _ _ _ _ _ Hd Happ).
Qed.

Lemma executed_write o p :
  executed (write o p)
  = executed p ++ match o with
                  | log (Arg (JStr name) :: _) => [name]
                  | _ => []
                  end.
Proof.
  unfold executed, write. cbn [console]. rewrite omap_app. f_equal.
  by destruct o as [| |[|[[]| |]]].
Qed.

Lemma iteration_executed it r p :
  executed (iteration it r p).2
  = executed p ++ match it with ItemTest name _ => [name] | _ => [] end.
Proof.
  destruct it as [path| |name callback]; cbn [iteration snd].
  - by rewrite executed_write.
  - by rewrite !executed_write, app_nil_r.
  - pose proof (runTest_removes_its_listeners callback r p) as Hp.
    destruct (runTest callback r p) as [[r1 p1] o]. cbn in Hp. subst p1.
    by destruct (truthy (outcome_error o)); cbn [snd]; rewrite executed_write.
Qed.

Lemma drain_executed n : ∀ r p x,
  drain n r p = Some x → ∃ l, executed x.2 = executed p ++ l.
Proof.
  induction n as [|n IH]; intros r p x Hd.
  - destruct (stack r) as [|it rest] eqn:E.
    + rewrite drain_nil in Hd by done. injection Hd as <-.
      exists []. by rewrite app_nil_r.
    + cbn in Hd. by rewrite E in Hd.
  - destruct (stack r) as [|it rest] eqn:E.
    + rewrite drain_nil in Hd by done. injection Hd as <-.
      exists []. by rewrite app_nil_r.
    + rewrite (drain_cons _ _ _ _ _ E) in Hd. apply IH in Hd as [l Hl].
      rewrite iteration_executed in Hl. rewrite Hl, <- app_assoc. eauto.
Qed.

Lemma after_loop_executed r p : executed (after_loop r p).2 = executed p.
Proof.
  unfold after_loop. destruct (filesDone r); [|done].
  cbn [snd]. unfold exit, executed. cbn [console].
  fold (executed (write (log [Template "failed: " (countFailed r)])
                    (write (log [Template "tests: " (countTests r)])
                       (write (log [Template "files: " (countFiles r)]) p)))).
  by rewrite !executed_write, !app_nil_r.
Qed.

(** [runTests] returns. *)
Lemma runTests_total r p : ∃ x, runTests r p = Some x.
Proof.
  unfold runTests.
  destruct (drain_total (stack_weight (stack r)) r p) as [[r' p'] Hd]; [done|].
  rewrite Hd. eauto.
Qed.

(** The names that a drain prints extend what was printed. *)
Lemma executed_same_nil (p : process) (l : list string) :
  executed p = executed p ++ l → l = [].
Proof.
  intros E. apply (f_equal length) in E. rewrite length_app in E.
  destruct l; [done|]. cbn in E. lia.
Qed.

(** Two tests on the stack run in the order of the stack, whatever the
    entries around them register; nothing runs before the first of them
    when it is on top. *)
Lemma drain_in_stack_order n r p x s1 name1 cb1 s2 name2 cb2 s3 :
  stack r = s1 ++ ItemTest name1 cb1 :: s2 ++ ItemTest name2 cb2 :: s3 →
  drain n r p = Some x →
  ∃ l0 l1 l2,
    executed x.2 = executed p ++ l0 ++ name1 :: l1 ++ name2 :: l2
    ∧ (s1 = [] → l0 = []).
Proof.
  intros E Hd.
  (* what is above the first test *)
  apply (drain_through _ _ _ _ s1 _ E) in Hd as (k & m & r1 & p1 & H1 & Hd).
  assert (H0 : ∃ l0, executed p1 = executed p ++ l0 ∧ (s1 = [] → l0 = [])).
  { destruct (drain_executed _ _ _ _ H1) as [l0 Hl0]. exists l0.
    split; [done|]. intros ->. rewrite drain_nil in H1 by done.
    injection H1 as <- <-. by apply (executed_same_nil p). }
  destruct H0 as (l0 & Hl0 & Hnil).
  (* the first test *)
  apply (drain_Some_cons _ (ItemTest name1 cb1) (s2 ++ ItemTest name2 cb2 :: s3))
    in Hd as (n1 & _ & Hd); [|done].
  rewrite set_stack_set_stack in Hd.
  change (s2 ++ ItemTest name2 cb2 :: s3)
    with ([] ++ (s2 ++ ItemTest name2 cb2 :: s3)) in Hd.
  rewrite iteration_above in Hd.
  pose proof (iteration_executed (ItemTest name1 cb1) (set_stack [] r1) p1)
    as He1.
  destruct (iteration (ItemTest name1 cb1) (set_stack [] r1) p1) as [rN pN].
  cbn [fst snd] in *.
  (* what it registered, and what lies between the two *)
  rewrite app_assoc in Hd.
  apply (drain_through _ _ _ _ (stack rN ++ s2) (ItemTest name2 cb2 :: s3))
    in Hd as (k2 & m2 & r2 & p2 & H2 & Hd); [|done].
  apply drain_executed in H2 as [l1 Hl1]. cbn [snd] in Hl1.
  (* the second test *)
  apply (drain_Some_cons _ (ItemTest name2 cb2) s3) in Hd as (n3 & _ & Hd);
    [|done].
  rewrite set_stack_set_stack in Hd.
  pose proof (iteration_executed (ItemTest name2 cb2) (set_stack s3 r2) p2)
    as He2.
  destruct (iteration (ItemTest name2 cb2) (set_stack s3 r2) p2) as [rB pB].
  cbn [fst snd] in *.
  apply drain_executed in Hd as [l2 Hl2].
  exists l0, l1, l2. split; [|done].
  rewrite Hl2, He2, Hl1, He1, Hl0, <- !app_assoc. done.
Qed.

(** C3. With test A first on the stack and test B behind it, the entries
    that the body of A registers through the context are put on top of
    the stack, in front of everything that was queued. [runTests]
    returns, and it runs A, then a test that A registered, then B; when
    A registered one test only, that test runs right after A. *)
Theorem nested_test_runs_before_the_next_sibling
    (nameA nameB : string) (bodyA : body) (cbB : option body)
    (mid rest : list item) (r : TestRunner) (p : process) :
  stack r = ItemTest nameA (Some bodyA) :: mid ++ ItemTest nameB cbB :: rest →
  let queued := mid ++ ItemTest nameB cbB :: rest in
  let evs := (run_callback bodyA (enter (set_stack queued r))).2 in
  stack (iteration (ItemTest nameA (Some bodyA)) (set_stack queued r) p).1
  = rev (map (fun t => ItemTest t.1 t.2) (registered evs)) ++ queued
  ∧ (∀ nested cbN,
       (nested, cbN) ∈ registered evs →
       ∃ r' p' l0 l1 l2,
         runTests r p = Some (r', p')
         ∧ executed p'
           = executed p ++ nameA :: l0 ++ nested :: l1 ++ nameB :: l2)
  ∧ (∀ nested cbN,
       registered evs = [(nested, cbN)] →
       ∃ r' p' l1 l2,
         runTests r p = Some (r', p')
         ∧ executed p' = executed p ++ nameA :: nested :: l1 ++ nameB :: l2).
Proof.
  intros Er. cbn zeta. set (q := mid ++ ItemTest nameB cbB :: rest) in *.
  set (evs := (run_callback bodyA (enter (set_stack q r))).2).
  assert (HA : stack (iteration (ItemTest nameA (Some bodyA)) (set_stack q r) p).1
               = rev (map (fun t => ItemTest t.1 t.2) (registered evs)) ++ q).
  { unfold iteration.
    pose proof (runTest_this (Some bodyA) (set_stack q r) p) as Ht.
    destruct (runTest (Some bodyA) (set_stack q r) p) as [[r1 p1] o].
    cbn [fst] in Ht. subst r1.
    assert (Hev : (try_block (Some bodyA) (enter (set_stack q r))).2 = evs).
    { unfold try_block, evs.
      by destruct (run_callback bodyA (enter (set_stack q r))) as [[? []] ?]. }
    rewrite Hev. by destruct (truthy (outcome_error o)). }
  split; [exact HA|].
  destruct (drain_total (stack_weight (stack r)) r p) as [[r' p'] Hd]; [done|].
  assert (Hrun : runTests r p = Some ((after_loop r' p').1, (after_loop r' p').2)).
  { unfold runTests. by rewrite Hd, <- surjective_pairing. }
  apply (drain_Some_cons _ _ _ _ _ _ Er) in Hd as (n1 & _ & Hd). fold q in Hd.
  pose proof (iteration_executed (ItemTest nameA (Some bodyA)) (set_stack q r) p)
    as HeA.
  destruct (iteration (ItemTest nameA (Some bodyA)) (set_stack q r) p)
    as [rA pA]. cbn [fst snd] in *.
  assert (Horder : ∀ nested cbN s1 s2,
            rev (map (fun t => ItemTest t.1 t.2) (registered evs))
            = s1 ++ ItemTest nested cbN :: s2 →
            ∃ l0 l1 l2,
              executed (after_loop r' p').2
              = executed p ++ nameA :: l0 ++ nested :: l1 ++ nameB :: l2
              ∧ (s1 = [] → l0 = [])).
  { intros nested cbN s1 s2 Es.
    destruct (drain_in_stack_order n1 rA pA (r', p') s1 nested cbN (s2 ++ mid)
                nameB cbB rest) as (l0 & l1 & l2 & Hl & Hnil); [|done|].
    { rewrite HA, Es. unfold q. by rewrite <- !app_assoc. }
    exists l0, l1, l2. split; [|done].
    rewrite after_loop_executed. cbn [snd] in Hl.
    rewrite Hl, HeA, <- !app_assoc. done. }
  split.
  - intros nested cbN Hin. apply list_elem_of_split in Hin as (t1 & t2 & Et).
    destruct (Horder nested cbN
                (rev (map (fun t => ItemTest t.1 t.2) t2))
                (rev (map (fun t => ItemTest t.1 t.2) t1)))
      as (l0 & l1 & l2 & Hl & _).
    { rewrite Et, map_app, rev_app_distr. cbn [map rev fst snd].
      by rewrite <- app_assoc. }
    eauto 10.
  - intros nested cbN Et.
    destruct (Horder nested cbN [] []) as (l0 & l1 & l2 & Hl & Hnil).
    { by rewrite Et. }
    rewrite (Hnil eq_refl) in Hl. eauto 10.
Qed.
End Loop.

(** * The theorems at concrete inputs *)


Lemma step_checks_value_then_timing_witness :
  schedule (ctx.step (H:=node) default_schedule 1005 [JStr "x"] started).1
  = Some [(100, [JStr "y"])]
  ∧ (ctx.step (H:=node) default_schedule 1005 [JStr "x"] started).2 = Normal
  ∧ (ctx.step (H:=node) default_schedule 1030 [JStr "x"] started).2
    = Thrown (JError [("message", JStr "bad timing");
                      ("expected", JArr [JNum 0; JStr "x"]);
                      ("actual", JArr [JNum 30; JStr "x"])])
  ∧ (ctx.step (H:=node) default_schedule 1005 [JStr "z"] started).2
    = Thrown (JError [("message", JStr "unexpected step");
                      ("expected", JArr [JNum 0; JStr "x"]);
                      ("actual", JArr [JNum 5; JStr "z"])]).
Proof.
  assert (Hs : schedule started = Some [(0, [JStr "x"]); (100, [JStr "y"])])
    by reflexivity.
  destruct (step_checks_value_then_timing (H:=node) default_schedule 1005
              [JStr "x"] started 0 [JStr "x"] [(100, [JStr "y"])] Hs)
    as (H1 & H2 & _).
  destruct (step_checks_value_then_timing (H:=node) default_schedule 1030
              [JStr "x"] started 0 [JStr "x"] [(100, [JStr "y"])] Hs)
    as (_ & H3 & _).
  destruct (step_checks_value_then_timing (H:=node) default_schedule 1005
              [JStr "z"] started 0 [JStr "x"] [(100, [JStr "y"])] Hs)
    as (_ & H4 & _).
  split; [exact H1|]. split; [rewrite H2; vm_compute; reflexivity|].
  split; [rewrite H3|rewrite H4]; vm_compute; reflexivity.
Defined.

Lemma error_is_the_first_recorded_witness :
  outcome_error
    (runTest (H:=node) (Some rejects_after_unhandled) new_TestRunner
       new_process).2 = background
  ∧ outcome_error
      (runTest (H:=node) (Some fails) new_TestRunner new_process).2
    = new_Error "failed".
Proof.
  split.
  - destruct (error_is_the_first_recorded (H:=node)
                (Some rejects_after_unhandled) new_TestRunner new_process)
      as (_ & Hfirst & _).
    apply (Hfirst [] background [own]); vm_compute; reflexivity.
  - destruct (error_is_the_first_recorded (H:=node) (Some fails)
                new_TestRunner new_process) as (_ & _ & Hsync & _).
    apply (Hsync fails
             (run_sync (invoke (H:=node)) ctx.test fails
                (enter new_TestRunner)).1.1
             (new_Error "failed") [EOp (Invoke (Fail None))]);
      vm_compute; reflexivity.
Defined.

Lemma nested_test_runs_before_the_next_sibling_witness :
  stack (iteration (H:=node) (ItemTest "A" (Some registers_nested))
           (set_stack [ItemTest "B" (Some two_assertions)] runner_A_B)
           new_process).1
  = [ItemTest "nested" None; ItemTest "B" (Some two_assertions)]
  ∧ ∃ r' p' l1 l2,
      runTests (H:=node) runner_A_B new_process = Some (r', p')
      ∧ executed p' = executed new_process ++ "A" :: "nested" :: l1 ++ "B" :: l2.
Proof.
  assert (Hs : stack runner_A_B
               = ItemTest "A" (Some registers_nested)
                 :: [] ++ ItemTest "B" (Some two_assertions) :: [])
    by reflexivity.
  destruct (nested_test_runs_before_the_next_sibling (H:=node) "A" "B"
              registers_nested (Some two_assertions) [] [] runner_A_B
              new_process Hs) as (Hstack & _ & Hone).
  split.
  - etransitivity; [exact Hstack|]. vm_compute; reflexivity.
  - apply (Hone "nested" None). vm_compute; reflexivity.
Defined.

Lemma missed_steps_when_nothing_failed_before_witness :
  (ctx.step (H:=node) default_schedule 1200 [JStr "z"] exhausted).2
  = Thrown (JError [("message", JStr "no steps left");
                    ("step", JArr [JNum 200; JStr "z"])])
  ∧ outcome_error
      (runTest (H:=node) (Some one_step_of_two) new_TestRunner new_process).2
    = JError [("message", JStr "missed steps");
              ("steps", JArr [JArr [JNum 100; JStr "y"]])].
Proof.
  destruct (missed_steps_when_nothing_failed_before (H:=node))
    as [Hleft Hmissed].
  split.
  - rewrite (Hleft default_schedule 1200 [JStr "z"] exhausted);
      vm_compute; reflexivity.
  - apply (Hmissed one_step_of_two new_TestRunner new_process
             (run_callback (H:=node) one_step_of_two (enter new_TestRunner)).1.1
             (run_callback (H:=node) one_step_of_two (enter new_TestRunner)).2
             (100, [JStr "y"]) []); vm_compute; reflexivity.
Defined.

Lemma expect_counts_the_assertions_after_it_witness :
  count_check
    (vars (run_callback (H:=node) two_assertions (enter new_TestRunner)).1.1)
  = None
  ∧ outcome_error
      (runTest (H:=node) (Some one_assertion_of_two) new_TestRunner
         new_process).2
    = JError [("message", JStr "wrong number");
              ("expected", JNum 2); ("actual", JNum 1)].
Proof.
  destruct (expect_counts_the_assertions_after_it (H:=node)) as [_ Hcount].
  split.
  - apply (Hcount two_assertions new_TestRunner new_process
             (run_callback (H:=node) two_assertions (enter new_TestRunner)).1.1
             (run_callback (H:=node) two_assertions (enter new_TestRunner)).2
             []
             [EOp (Invoke (Ok (JBool true) None JUndefined));
              EOp (Invoke (Equal (JNum 1) (JNum 1) None JUndefined))] 2);
      vm_compute; reflexivity.
  - apply (Hcount one_assertion_of_two new_TestRunner new_process
             (run_callback (H:=node) one_assertion_of_two
                (enter new_TestRunner)).1.1
             (run_callback (H:=node) one_assertion_of_two
                (enter new_TestRunner)).2
             []
             [EOp (Invoke (Ok (JBool true) None JUndefined))] 2);
      try (vm_compute; reflexivity).
    vm_compute. lia.
Defined.

Lemma falsy_exception_passes_witness :
  (outcome_error
     (runTest (H:=node) (Some throws_zero) new_TestRunner new_process).2
   = JNum 0
   ∧ reported_as_passed (H:=node) "t" (Some throws_zero) new_TestRunner
       new_process)
  ∧ (outcome_error
       (runTest (H:=node) (Some rejects_zero) new_TestRunner new_process).2
     = JNum 0
     ∧ reported_as_passed (H:=node) "t" (Some rejects_zero) new_TestRunner
         new_process).
Proof.
  assert (Hfalsy : truthy (JNum 0) = false) by reflexivity.
  split.
  - destruct (falsy_exception_passes (H:=node) "t" throws_zero new_TestRunner
                new_process (enter new_TestRunner) (JNum 0) [] Hfalsy)
      as [Hthrow _].
    apply Hthrow. vm_compute; reflexivity.
  - destruct (falsy_exception_passes (H:=node) "t" rejects_zero new_TestRunner
                new_process (enter new_TestRunner) (JNum 0) [] Hfalsy)
      as [_ Hreject].
    apply Hreject; vm_compute; reflexivity.
Defined.

(** * Where the specification says something else *)

(** C2. The body awaits while [background] is reported as an unhandled
    rejection, and its promise rejects with [own] afterwards: the rule
    "body's own exception first" gives [own], [runTest] gives
    [background]. *)
Lemma captured_error_precedes_a_later_rejection :
  spec_outcome_error (H:=node) rejects_after_unhandled new_TestRunner = own
  ∧ outcome_error
      (runTest (H:=node) (Some rejects_after_unhandled) new_TestRunner
         new_process).2 = background
  ∧ outcome_error
      (runTest (H:=node) (Some rejects_after_unhandled) new_TestRunner
         new_process).2
    ≠ spec_outcome_error (H:=node) rejects_after_unhandled new_TestRunner.
Proof.
  split; [vm_compute; reflexivity|]. split; [vm_compute; reflexivity|].
  vm_compute. discriminate.
Qed.

(** C6. The body completes with the step [[0, 'x']] left on its schedule
    and with 0 of the 1 assertions it announced: the error of the
    outcome is "wrong number", not "missed steps". *)
Lemma count_mismatch_precedes_missed_steps :
  let run :=
    run_callback (H:=node) expects_one_and_misses_a_step (enter new_TestRunner) in
  let outcome :=
    (runTest (H:=node) (Some expects_one_and_misses_a_step) new_TestRunner
       new_process).2 in
  run.1.2 = Normal
  ∧ schedule (vars run.1.1) = Some [(0, [JStr "x"])]
  ∧ outcome_error outcome
    = JError [("message", JStr "wrong number");
              ("expected", JNum 1); ("actual", JNum 0)]
  ∧ outcome_error outcome
    ≠ JError [("message", JStr "missed steps");
              ("steps", JArr [JArr [JNum 0; JStr "x"]])].
Proof.
  cbn zeta. repeat split; try (vm_compute; reflexivity).
  vm_compute. discriminate.
Qed.

(** C9. The promise of the body rejects with 0 after [background] has
    been reported as an unhandled rejection: the error of the outcome is
    [background], and the test counts as failed. *)
Lemma captured_error_precedes_a_falsy_rejection :
  let run :=
    run_callback (H:=node) rejects_zero_after_unhandled (enter new_TestRunner) in
  let turn :=
    iteration (H:=node) (ItemTest "t" (Some rejects_zero_after_unhandled))
      new_TestRunner new_process in
  run.1.2 = Thrown (JNum 0)
  ∧ truthy (JNum 0) = false
  ∧ outcome_error
      (runTest (H:=node) (Some rejects_zero_after_unhandled) new_TestRunner
         new_process).2 = background
  ∧ background ≠ JNum 0
  ∧ countFailed turn.1 = countFailed new_TestRunner + 1
  ∧ ¬ reported_as_passed (H:=node) "t" (Some rejects_zero_after_unhandled)
        new_TestRunner new_process.
Proof.
  cbn zeta. repeat split; try (vm_compute; reflexivity); try discriminate.
  intros [Hc _]. vm_compute in Hc. discriminate.
Qed.

(** * More about [src/runner.js] *)

(** ** The loop of [runTests] *)

Section LoopFacts.
Context `{Platform}.

(** A relation between the start and the end of the loop that holds
    when nothing is done and is carried backwards over every turn. *)
Lemma drain_rel (R : TestRunner → process → TestRunner → process → Prop) :
  (∀ r p, stack r = [] → R r p r p) →
  (∀ it rest r p r2 p2,
     stack r = it :: rest →
     R (iteration it (set_stack rest r) p).1 (iteration it (set_stack rest r) p).2
       r2 p2 →
     R r p r2 p2) →
  ∀ n r p r2 p2, drain n r p = Some (r2, p2) → R r p r2 p2.
Proof.
  intros Hnil Hstep n. induction n as [|n IH]; intros r p r2 p2 Hd.
  - destruct (stack r) as [|it rest] eqn:E.
    + rewrite drain_nil in Hd by done. injection Hd as <- <-. by apply Hnil.
    + cbn in Hd. by rewrite E in Hd.
  - destruct (stack r) as [|it rest] eqn:E.
    + rewrite drain_nil in Hd by done. injection Hd as <- <-. by apply Hnil.
    + rewrite (drain_cons _ _ _ _ _ E) in Hd.
      apply (Hstep it rest); [done|]. by apply IH.
Qed.

Lemma iteration_runner it r p :
  (iteration it r p).1
  = match it with
    | ItemTest name callback =>
        let r1 := (runTest callback r p).1.1 in
        if truthy (outcome_error (runTest callback r p).2)
        then set_countFailed (countFailed r1 + 1) r1 else r1
    | _ => r
    end.
Proof.
  destruct it as [path| |name callback]; try done. cbn [iteration].
  destruct (runTest callback r p) as [[r1 p1] o]. cbn [fst snd].
  by destruct (truthy (outcome_error o)).
Qed.

Lemma iteration_console it r p :
  console (iteration it r p).2
  = console p
    ++ match it with
       | ItemString path => [group path]
       | ItemNull => [groupEnd; log []]
       | ItemTest name callback =>
           let o := (runTest callback r p).2 in
           if truthy (outcome_error o)
           then [log [Arg (JStr name); Arg (JStr "->");
                      Inspect (outcome_error o) (outcome_shouldSortKeys o)]]
           else [log [Arg (JStr name)]]
       end.
Proof.
  destruct it as [path| |name callback]; cbn [iteration snd].
  - done.
  - cbn. by rewrite <- app_assoc.
  - pose proof (runTest_removes_its_listeners callback r p) as Hp.
    destruct (runTest callback r p) as [[r1 p1] o]. cbn in Hp. subst p1.
    cbn [fst snd]. by destruct (truthy (outcome_error o)).
Qed.

Lemma iteration_process it r p :
  unhandledRejection (iteration it r p).2 = unhandledRejection p
  ∧ uncaughtException (iteration it r p).2 = uncaughtException p
  ∧ exit_code (iteration it r p).2 = exit_code p.
Proof.
  destruct it as [path| |name callback]; cbn [iteration snd]; try done.
  pose proof (runTest_removes_its_listeners callback r p) as Hp.
  destruct (runTest callback r p) as [[r1 p1] o]. cbn in Hp. subst p1.
  by destruct (truthy (outcome_error o)).
Qed.

Lemma iteration_flags it r p :
  countFiles (iteration it r p).1 = countFiles r
  ∧ running (iteration it r p).1 = running r
  ∧ filesDone (iteration it r p).1 = filesDone r.
Proof.
  rewrite iteration_runner. destruct it as [path| |name callback]; try done.
  cbn zeta. rewrite runTest_this.
  by destruct (truthy (outcome_error (runTest callback r p).2)).
Qed.


Lemma drain_keeps n r p r' p' :
  drain n r p = Some (r', p') →
  countFiles r' = countFiles r ∧ running r' = running r
  ∧ filesDone r' = filesDone r ∧ exit_code p' = exit_code p
  ∧ unhandledRejection p' = unhandledRejection p
  ∧ uncaughtException p' = uncaughtException p.
Proof.
  apply (drain_rel (fun r p r2 p2 =>
           countFiles r2 = countFiles r ∧ running r2 = running r
           ∧ filesDone r2 = filesDone r ∧ exit_code p2 = exit_code p
           ∧ unhandledRejection p2 = unhandledRejection p
           ∧ uncaughtException p2 = uncaughtException p)); [done|].
  intros it rest r0 p0 r2 p2 _ (H1 & H2 & H3 & H4 & H5 & H6).
  destruct (iteration_flags it (set_stack rest r0) p0) as (F1 & F2 & F3).
  destruct (iteration_process it (set_stack rest r0) p0) as (P1 & P2 & P3).
  rewrite H1, H2, H3, H4, H5, H6, F1, F2, F3, P1, P2, P3. done.
Qed.

End LoopFacts.

Section LoopCounts.
Context `{Platform}.

Lemma executed_app_console p out :
  executed (Process (unhandledRejection p) (uncaughtException p)
              (console p ++ out) (exit_code p))
  = executed p
    ++ omap (fun o => match o with
                      | log (Arg (JStr name) :: _) => Some name
                      | _ => None
                      end) out.
Proof. unfold executed. cbn [console]. by rewrite omap_app. Qed.

Lemma iteration_counts it r p :
  ∃ ran failed,
    executed (iteration it r p).2 = executed p ++ ran
    ∧ failures (iteration it r p).2 = failures p ++ failed
    ∧ countTests (iteration it r p).1 = countTests r + Z.of_nat (length ran)
    ∧ countFailed (iteration it r p).1 = countFailed r + Z.of_nat (length failed)
    ∧ sublist failed ran.
Proof.
  unfold executed, failures.
  rewrite iteration_console, iteration_runner, !omap_app.
  destruct it as [path| |name callback].
  - exists [], []. cbn. rewrite !app_nil_r, !Z.add_0_r. done.
  - exists [], []. cbn. rewrite !app_nil_r, !Z.add_0_r. done.
  - cbn zeta. rewrite runTest_this.
    destruct (truthy (outcome_error (runTest callback r p).2)).
    + exists [name], [name]. cbn. done.
    + exists [name], []. cbn. rewrite app_nil_r, Z.add_0_r.
      repeat split; try done. apply sublist_nil_l.
Qed.

Lemma drain_counts n r p r' p' :
  drain n r p = Some (r', p') →
  ∃ ran failed,
    executed p' = executed p ++ ran
    ∧ failures p' = failures p ++ failed
    ∧ countTests r' = countTests r + Z.of_nat (length ran)
    ∧ countFailed r' = countFailed r + Z.of_nat (length failed)
    ∧ sublist failed ran.
Proof.
  apply (drain_rel (fun r p r2 p2 =>
           ∃ ran failed,
             executed p2 = executed p ++ ran
             ∧ failures p2 = failures p ++ failed
             ∧ countTests r2 = countTests r + Z.of_nat (length ran)
             ∧ countFailed r2 = countFailed r + Z.of_nat (length failed)
             ∧ sublist failed ran)).
  - intros r0 p0 _. exists [], []. rewrite !app_nil_r, !Z.add_0_r.
    repeat split; done.
  - intros it rest r0 p0 r2 p2 _ (ran2 & failed2 & E2 & F2 & T2 & C2 & S2).
    destruct (iteration_counts it (set_stack rest r0) p0)
      as (ran1 & failed1 & E1 & F1 & T1 & C1 & S1).
    exists (ran1 ++ ran2), (failed1 ++ failed2).
    rewrite E2, F2, T2, C2, E1, F1, T1, C1, !length_app, !Nat2Z.inj_add,
      <- !app_assoc.
    cbn [countTests countFailed set_stack].
    repeat split; try done; try lia. by apply sublist_app.
Qed.

Lemma after_loop_counts r p :
  executed (after_loop r p).2 = executed p
  ∧ failures (after_loop r p).2 = failures p
  ∧ countTests (after_loop r p).1 = countTests r
  ∧ countFailed (after_loop r p).1 = countFailed r.
Proof.
  split; [apply after_loop_executed|].
  unfold after_loop, failures. destruct (filesDone r); [|done].
  cbn. rewrite <- !app_assoc, omap_app. cbn. by rewrite app_nil_r.
Qed.

(** X2. [runTests] counts what it prints: [countTests] grows by the
    number of test lines it prints and [countFailed] by the number of
    those that carry an error, and every test that is counted as failed
    is among the tests that were run. *)
Theorem runTests_counts_its_lines (r : TestRunner) (p : process) :
  ∃ r' p' ran failed,
    runTests r p = Some (r', p')
    ∧ executed p' = executed p ++ ran
    ∧ failures p' = failures p ++ failed
    ∧ countTests r' = countTests r + Z.of_nat (length ran)
    ∧ countFailed r' = countFailed r + Z.of_nat (length failed)
    ∧ sublist failed ran.
Proof.
  destruct (drain_total (stack_weight (stack r)) r p) as [[r1 p1] Hd]; [done|].
  destruct (drain_counts _ _ _ _ _ Hd) as (ran & failed & E & F & T & C & S).
  destruct (after_loop_counts r1 p1) as (E' & F' & T' & C').
  exists (after_loop r1 p1).1, (after_loop r1 p1).2, ran, failed.
  unfold runTests. rewrite Hd, <- surjective_pairing, E', F', T', C'. done.
Qed.

(** X3. [finish] ends the process: it returns with an exit code, which
    is 1 exactly when a failure was counted before or one of the tests
    it ran failed, and the totals it prints last are the counts of the
    runner plus the lines printed. *)
Theorem finish_exits_with_the_failures (r : TestRunner) (p : process) :
  ∃ r' p' ran failed out,
    finish r p = Some (r', p')
    ∧ executed p' = executed p ++ ran
    ∧ failures p' = failures p ++ failed
    ∧ exit_code p'
      = Some (if 0 <? countFailed r + Z.of_nat (length failed) then 1 else 0)
    ∧ console p'
      = out ++ [log [Template "files: " (countFiles r)];
                log [Template "tests: "
                       (countTests r + Z.of_nat (length ran))];
                log [Template "failed: "
                       (countFailed r + Z.of_nat (length failed))]].
Proof.
  unfold finish, runTests.
  destruct (drain_total (stack_weight (stack (set_filesDone true r)))
              (set_filesDone true r) p) as [[r1 p1] Hd]; [done|].
  destruct (drain_counts _ _ _ _ _ Hd) as (ran & failed & E & F & T & C & _).
  destruct (drain_keeps _ _ _ _ _ Hd) as (K1 & _ & K3 & _).
  rewrite Hd. unfold after_loop. rewrite K3. cbn [filesDone set_filesDone].
  exists r1, (exit (if 0 <? countFailed r1 then 1 else 0)
                (write (log [Template "failed: " (countFailed r1)])
                   (write (log [Template "tests: " (countTests r1)])
                      (write (log [Template "files: " (countFiles r1)]) p1)))),
    ran, failed, (console p1).
  split; [done|].
  pose proof (after_loop_counts r1 p1) as (E' & F' & _).
  unfold after_loop in E', F'. rewrite K3 in E', F'.
  cbn [filesDone set_filesDone fst snd] in E', F'.
  rewrite E', F', E, F, K1, T, C. repeat split; try done.
  cbn. by rewrite <- !app_assoc.
Qed.
End LoopCounts.

Section LoopOrder.
Context `{Platform}.

Lemma drained_total r p : ∃ r' p', drained r p r' p'.
Proof.
  destruct (drain_total (stack_weight (stack r)) r p) as [[r' p'] Hd]; [done|].
  exists r', p'. by exists (stack_weight (stack r)).
Qed.

Lemma drained_nil r p r' p' : stack r = [] → drained r p r' p' → r' = r ∧ p' = p.
Proof.
  intros E [n Hd]. rewrite drain_nil in Hd by done. by injection Hd as <- <-.
Qed.

Lemma drained_cons it rest r p r' p' :
  stack r = it :: rest →
  drained r p r' p'
  ↔ drained (iteration it (set_stack rest r) p).1
      (iteration it (set_stack rest r) p).2 r' p'.
Proof.
  intros E. split; intros [n Hd].
  - apply (drain_Some_cons _ _ _ _ _ _ E) in Hd as (n' & _ & Hd). by exists n'.
  - exists (S n). by rewrite (drain_cons _ _ _ _ _ E).
Qed.

Lemma drained_split s t r p r2 p2 :
  drained (set_stack (s ++ t) r) p r2 p2 →
  ∃ r1 p1, drained (set_stack s r) p r1 p1 ∧ drained (set_stack t r1) p1 r2 p2.
Proof.
  intros [n Hd].
  apply (drain_through _ _ _ _ s t) in Hd as (k & m & r1 & p1 & H1 & H2);
    [|done].
  rewrite set_stack_set_stack in H1.
  exists r1, p1. split; [by exists k|by exists m].
Qed.

Lemma drained_join s t r p r1 p1 r2 p2 :
  drained (set_stack s r) p r1 p1 → drained (set_stack t r1) p1 r2 p2 →
  drained (set_stack (s ++ t) r) p r2 p2.
Proof.
  intros [k H1] [m H2]. exists (k + m)%nat.
  pose proof (drain_app _ _ _ _ _ _ _ _ H1 H2) as Happ.
  by rewrite stack_set_stack, set_stack_set_stack in Happ.
Qed.

(** X4. The loop handles the stack from the top: draining [s ++ t] is
    draining [s] with everything that its tests register, and then [t]
    from the runner and the process that this leaves. *)
Theorem stack_is_drained_from_the_top
    (s t : list item) (r : TestRunner) (p : process)
    (r2 : TestRunner) (p2 : process) :
  drained (set_stack (s ++ t) r) p r2 p2
  ↔ ∃ r1 p1,
      drained (set_stack s r) p r1 p1 ∧ drained (set_stack t r1) p1 r2 p2.
Proof.
  split.
  - apply drained_split.
  - intros (r1 & p1 & H1 & H2). by apply (drained_join s t r p r1 p1).
Qed.

Lemma forallb_is_test_registered (ts : list (string * option body)) :
  forallb is_test (rev (map (fun t => ItemTest t.1 t.2) ts)) = true.
Proof.
  apply forallb_forall. intros it Hin. apply in_rev, in_map_iff in Hin.
  by destruct Hin as (t & <- & _).
Qed.

(** While only tests are on the stack, only tests are put on it, and
    only test lines are printed. *)
Lemma drain_tests_only n r p r' p' :
  drain n r p = Some (r', p') →
  forallb is_test (stack r) = true →
  ∃ lines, console p' = console p ++ lines
           ∧ forallb is_test_line lines = true.
Proof.
  apply (drain_rel (fun r p r2 p2 =>
           forallb is_test (stack r) = true →
           ∃ lines, console p2 = console p ++ lines
                    ∧ forallb is_test_line lines = true)).
  - intros r0 p0 _ _. exists []. by rewrite app_nil_r.
  - intros it rest r0 p0 r2 p2 E IH Hall. rewrite E in Hall.
    cbn [forallb] in Hall. apply andb_true_iff in Hall as [Hit Hrest].
    destruct it as [| |name callback]; try done.
    destruct IH as (lines & Hc & Hl).
    { rewrite iteration_runner. cbn zeta. rewrite runTest_this.
      destruct (truthy _); cbn [stack set_countFailed set_stack];
        rewrite forallb_app, forallb_is_test_registered; done. }
    rewrite iteration_console in Hc. cbn zeta in Hc.
    destruct (truthy _); rewrite <- app_assoc in Hc;
      eexists; (split; [exact Hc|]); cbn; done.
Qed.

Lemma drain_console n r p r' p' :
  drain n r p = Some (r', p') → ∃ out, console p' = console p ++ out.
Proof.
  apply (drain_rel (fun _ p _ p2 => ∃ out, console p2 = console p ++ out)).
  - intros _ p0 _. exists []. by rewrite app_nil_r.
  - intros it rest r0 p0 r2 p2 _ [out Ho]. rewrite iteration_console in Ho.
    rewrite <- app_assoc in Ho. eauto.
Qed.

(** X5. A file on the stack, that is its path, tests and [null], is
    printed as a group: the loop opens the group, prints lines of tests
    only (the tests of the file and the tests these register), closes
    the group and prints the empty line, and goes on to what is queued
    behind. A body can neither open nor close a group. *)
Theorem file_is_printed_as_a_group
    (path : string) (tests : list (string * option body)) (rest : list item)
    (r : TestRunner) (p : process) :
  ∃ r' p' lines later,
    drained
      (set_stack
         (ItemString path :: map (fun t => ItemTest t.1 t.2) tests
            ++ ItemNull :: rest) r) p r' p'
    ∧ console p'
      = console p ++ group path :: lines ++ groupEnd :: log [] :: later
    ∧ forallb is_test_line lines = true.
Proof.
  set (ts := map (fun t => ItemTest t.1 t.2) tests).
  destruct (drained_total (set_stack (ItemString path :: ts ++ ItemNull :: rest) r) p)
    as (r' & p' & Hd).
  exists r', p'.
  pose proof Hd as Hd'.
  apply (drained_cons (ItemString path) (ts ++ ItemNull :: rest)) in Hd';
    [|done].
  rewrite set_stack_set_stack in Hd'. cbn [iteration fst snd] in Hd'.
  apply drained_split in Hd' as (r1 & p1 & [n1 H1] & H2).
  destruct (drain_tests_only _ _ _ _ _ H1) as (lines & Hl & Hall).
  { cbn [stack set_stack]. unfold ts. apply forallb_forall.
    intros it Hin. apply in_map_iff in Hin. by destruct Hin as (t & <- & _). }
  apply (drained_cons ItemNull rest) in H2; [|done].
  rewrite set_stack_set_stack in H2. cbn [iteration fst snd] in H2.
  destruct H2 as [n2 H2]. apply drain_console in H2 as [later Ho].
  exists lines, later. split; [done|]. split; [|done].
  rewrite Ho. cbn [console write]. rewrite Hl. cbn [console write].
  rewrite <- !app_assoc. done.
Qed.

Lemma drained_executed r p r' p' :
  drained r p r' p' → ∃ l, executed p' = executed p ++ l.
Proof. intros [n Hd]. by apply drain_executed in Hd. Qed.

Lemma drained_in_order s : ∀ r p r' p',
  drained (set_stack s r) p r' p' →
  ∃ ran, executed p' = executed p ++ ran ∧ sublist (test_names s) ran.
Proof.
  induction s as [|it s IH]; intros r p r' p' Hd.
  - apply drained_nil in Hd as [-> ->]; [|done].
    exists []. by rewrite app_nil_r.
  - change (it :: s) with ([it] ++ s) in Hd.
    apply drained_split in Hd as (r1 & p1 & H1 & H2).
    apply (drained_cons it []) in H1; [|done].
    rewrite set_stack_set_stack in H1.
    apply drained_executed in H1 as [l1 Hl1].
    rewrite iteration_executed in Hl1.
    apply IH in H2 as (ran2 & Hl2 & Hsub).
    exists ((match it with ItemTest name _ => [name] | _ => [] end ++ l1) ++ ran2).
    split; [by rewrite Hl2, Hl1, <- !app_assoc|].
    destruct it as [| |name callback]; cbn [test_names omap];
      try by apply sublist_inserts_l.
    change (test_names (ItemTest name callback :: s))
      with (name :: test_names s).
    cbn [app]. apply sublist_skip. by apply sublist_inserts_l.
Qed.

(** X6. [runTests] runs the tests that are on the stack in the order of
    the stack; the tests registered by bodies run in between. *)
Theorem queued_tests_run_in_order (r : TestRunner) (p : process) :
  ∃ r' p' ran,
    runTests r p = Some (r', p')
    ∧ executed p' = executed p ++ ran
    ∧ sublist (test_names (stack r)) ran.
Proof.
  destruct (drain_total (stack_weight (stack r)) r p) as [[r1 p1] Hd]; [done|].
  destruct (drained_in_order (stack r) r p r1 p1) as (ran & He & Hsub).
  { rewrite set_stack_same. by exists (stack_weight (stack r)). }
  exists (after_loop r1 p1).1, (after_loop r1 p1).2, ran.
  unfold runTests. rewrite Hd, <- surjective_pairing, after_loop_executed. done.
Qed.
End LoopOrder.

(** ** Registration *)

Section Registration.
Context `{Platform}.

Lemma appendTest_fields name callback r :
  stack (appendTest name callback r).1 = stack r ++ [ItemTest name callback]
  ∧ running (appendTest name callback r).1 = true
  ∧ (appendTest name callback r).2 = negb (running r)
  ∧ countFiles (appendTest name callback r).1 = countFiles r
  ∧ countTests (appendTest name callback r).1 = countTests r
  ∧ countFailed (appendTest name callback r).1 = countFailed r
  ∧ filesDone (appendTest name callback r).1 = filesDone r.
Proof. unfold appendTest. cbn. by destruct (running r) eqn:E; cbn. Qed.

Lemma fold_appendTest tests : ∀ r,
  let r' := fold_left (fun r t => (appendTest t.1 t.2 r).1) tests r in
  stack r' = stack r ++ map (fun t => ItemTest t.1 t.2) tests
  ∧ running r' = running r || negb (Nat.eqb (length tests) 0)
  ∧ countFiles r' = countFiles r ∧ countTests r' = countTests r
  ∧ countFailed r' = countFailed r ∧ filesDone r' = filesDone r.
Proof.
  induction tests as [|t tests IH]; intros r; cbn zeta.
  - cbn. by rewrite app_nil_r, orb_false_r.
  - cbn [fold_left]. destruct (IH (appendTest t.1 t.2 r).1)
      as (I1 & I2 & I3 & I4 & I5 & I6).
    destruct (appendTest_fields t.1 t.2 r) as (A1 & A2 & _ & A4 & A5 & A6 & A7).
    rewrite I1, I2, I3, I4, I5, I6, A1, A2, A4, A5, A6, A7, <- app_assoc.
    cbn. by rewrite orb_true_r.
Qed.

(** X7. [appendFile] counts the file and queues, behind everything that
    is on the stack, the path, the tests that the file registers in
    their order, and [null]; the runner is running afterwards exactly
    when it was running or the file registered a test. [appendTest]
    schedules [runTests] only when the runner is not running, so a
    second registration never schedules it again. *)
Theorem appendFile_queues_a_group
    (path : string) (tests : list (string * option body)) (r : TestRunner) :
  stack (appendFile path tests r)
  = stack r ++ ItemString path :: map (fun t => ItemTest t.1 t.2) tests
      ++ [ItemNull]
  ∧ countFiles (appendFile path tests r) = countFiles r + 1
  ∧ running (appendFile path tests r)
    = running r || negb (Nat.eqb (length tests) 0)
  ∧ countTests (appendFile path tests r) = countTests r
  ∧ countFailed (appendFile path tests r) = countFailed r
  ∧ filesDone (appendFile path tests r) = filesDone r
  ∧ (∀ name callback name' callback',
       (appendTest name callback r).2 = negb (running r)
       ∧ (appendTest name' callback' (appendTest name callback r).1).2 = false).
Proof.
  unfold appendFile. cbn zeta.
  set (r0 := set_stack (stack (set_countFiles (countFiles r + 1) r)
                        ++ [ItemString path])
               (set_countFiles (countFiles r + 1) r)).
  destruct (fold_appendTest tests r0) as (F1 & F2 & F3 & F4 & F5 & F6).
  cbn zeta in *.
  set (r1 := fold_left (fun r t => (appendTest t.1 t.2 r).1) tests r0) in *.
  cbn [stack running countFiles countTests countFailed filesDone set_stack].
  rewrite F1, F2, F3, F4, F5, F6. unfold r0.
  cbn [stack running countFiles countTests countFailed filesDone set_stack
         set_countFiles].
  rewrite <- !app_assoc. repeat split; try done.
  - unfold appendTest. cbn. by destruct (running r).
  - destruct (appendTest_fields name' callback' (appendTest name callback r).1)
      as (_ & _ & -> & _).
    by destruct (appendTest_fields name callback r) as (_ & -> & _).
Qed.
End Registration.

(** ** The methods of the context *)

Section Methods.
Context `{Platform}.

(** X8. Every assertion method adds exactly one to [countActual],
    whether it returns or throws; [expect] sets it to 0; [fail],
    [timeout], [schedule], [start] and [step] leave it alone, and so
    does what an [async] assertion does after its [await]. *)
Theorem assertions_count_once (c : call) (q : pending) (fr : frame) :
  countActual (vars (invoke c fr).1)
  = match c with
    | Expect _ => 0
    | _ => countActual (vars fr) + (if counts c then 1 else 0)
    end
  ∧ countActual (vars (settle q fr).1) = countActual (vars fr)
  ∧ countExpected (vars (settle q fr).1) = countExpected (vars fr)
  ∧ countExpected (vars (invoke c fr).1)
    = match c with Expect n => n | _ => countExpected (vars fr) end.
Proof.
  pose proof (count_view (EOp (Invoke c)) fr) as Hc.
  pose proof (count_view (EOp (Settle q)) fr) as Hq.
  cbn [apply_event perform] in Hc, Hq.
  pose proof (f_equal fst Hc) as Hc1. pose proof (f_equal snd Hc) as Hc2.
  pose proof (f_equal fst Hq) as Hq1. pose proof (f_equal snd Hq) as Hq2.
  cbn [fst snd] in Hc1, Hc2, Hq1, Hq2. rewrite Hc1, Hc2, Hq1, Hq2.
  destruct c; cbn; rewrite ?Z.add_0_r; done.
Qed.

Lemma lookup_assign_eq k v ps : lookup_prop k (assign_prop k v ps) = v.
Proof.
  induction ps as [|[k' v'] ps IH]; cbn; [by rewrite String.eqb_refl|].
  destruct (String.eqb k k') eqn:E; cbn; [by rewrite String.eqb_refl|].
  by rewrite E.
Qed.

Lemma lookup_assign_ne k k' v ps :
  k ≠ k' → lookup_prop k' (assign_prop k v ps) = lookup_prop k' ps.
Proof.
  intros Hne.
  assert (Hkk : String.eqb k' k = false).
  { apply String.eqb_neq. congruence. }
  induction ps as [|[k0 v0] ps IH]; cbn; [by rewrite Hkk|].
  destruct (String.eqb k k0) eqn:E; cbn.
  - apply String.eqb_eq in E as <-. by rewrite Hkk.
  - by rewrite IH.
Qed.

Lemma assign_info_error ps info :
  ∃ ps', assign_info (JError ps) info = JError ps'
         ∧ (has_key "message" info = false →
            lookup_prop "message" ps' = lookup_prop "message" ps).
Proof.
  destruct info as [qs|]; [|by exists ps].
  cbn [assign_info has_key].
  revert ps. induction qs as [|[k v] qs IH]; intros ps; [by exists ps|].
  cbn [fold_left fst snd set_prop].
  destruct (IH (assign_prop k v ps)) as (ps' & E & Hm).
  exists ps'. split; [done|]. intros Hk. cbn [existsb fst] in Hk.
  apply orb_false_iff in Hk as [Hk1 Hk2]. rewrite Hm by done.
  apply lookup_assign_ne. apply String.eqb_neq in Hk1. congruence.
Qed.

(** X9. [equal] returns exactly when [isEqual(actual, expected)] holds.
    Otherwise it throws an [Error] whose [expected] and [actual] are the
    two arguments, whatever [info] contains; every other property is
    what [info] made it, and the message is "not equal" unless [info]
    has a [message] of its own. *)
Theorem equal_reports_both_values
    (actual expected : JsVal) (info : info_t) (sort : JsVal) (l : locals) :
  match (ctx.equal actual expected info sort l).2 with
  | Normal => isEqual actual expected = true
  | Thrown err =>
      isEqual actual expected = false
      ∧ get_prop "expected" err = expected
      ∧ get_prop "actual" err = actual
      ∧ (∀ k, k ≠ "expected" → k ≠ "actual" →
           get_prop k err
           = get_prop k (assign_info (new_Error "not equal") info))
      ∧ (has_key "message" info = false →
         get_prop "message" err = JStr "not equal")
  end.
Proof.
  unfold ctx.equal. destruct (isEqual actual expected); [done|].
  cbn [snd]. split; [done|]. unfold new_Error.
  destruct (assign_info_error [("message", JStr "not equal")] info)
    as (ps & -> & Hm).
  cbn [set_prop get_prop]. split; [|split; [|split]].
  - rewrite lookup_assign_ne by done. apply lookup_assign_eq.
  - apply lookup_assign_eq.
  - intros k Hk1 Hk2. rewrite !lookup_assign_ne by congruence. done.
  - intros Hk. rewrite !lookup_assign_ne by done. by rewrite Hm.
Qed.

(** X10. Of [throws(cb)] and [throwsNot(cb)] exactly one returns: the
    first when [cb] throws, the second when it does not; a callback
    that returns a rejected promise has not thrown. [throwsWith] returns
    when [cb] throws and [assert] accepts what it threw; what [assert]
    throws leaves [throwsWith] as it is, with the sort flag untouched. *)
Theorem throws_and_throwsNot_are_opposites
    (cb assert : thunk) (info : info_t) (sort : JsVal) (l : locals) :
  ((ctx.throws cb info sort l).2 = Normal
   ↔ (ctx.throwsNot cb info sort l).2 ≠ Normal)
  ∧ ((ctx.throws cb info sort l).2 = Normal ↔ ∃ e, result cb = CbThrows e)
  ∧ (∀ e, result cb = CbRejects e →
       (ctx.throwsNot cb info sort l).2 = Normal
       ∧ (ctx.throws cb info sort l).2 = Thrown (ctx.didnt_throw cb info))
  ∧ ((ctx.throwsWith cb assert info sort l).2 = Normal
     ↔ (∃ e, result cb = CbThrows e) ∧ ∀ e, result assert ≠ CbThrows e)
  ∧ (∀ e e', result cb = CbThrows e → result assert = CbThrows e' →
       ctx.throwsWith cb assert info sort l = (ctx.count l, Thrown e')).
Proof.
  unfold ctx.throws, ctx.throwsNot, ctx.throwsWith, caught_sync.
  destruct (result cb) as [v| |e|e] eqn:Ecb;
    destruct (result assert) as [v'| |e'|e'] eqn:Eas; cbn;
    repeat split; try done; try (intros; congruence);
    try (intros [? ?]; congruence); try (intros [[? ?] ?]; congruence);
    try (intros [[? ?] Hn]; by specialize (Hn e'));
    try (intros _; eauto); try (intros _; split; [eauto|congruence]);
    eauto.
Qed.
End Methods.

(** ** Schedules *)

Section ScheduleFacts.
Context `{Platform}.

Lemma step_schedule h now x l :
  schedule (ctx.step h now x l).1 = tail <$> schedule l.
Proof.
  unfold ctx.step.
  destruct (schedule l) as [[|[time value] rest]|] eqn:E; cbn; rewrite ?E;
    try done.
  destruct (negb _); [done|]. destruct (num_gt _ _); [done|].
  by destruct (truthy _).
Qed.

Lemma step_returned h now x l l1 time value rest :
  truthy (propagate h) = true →
  schedule l = Some ((time, value) :: rest) →
  ctx.step h now x l = (l1, Normal) →
  schedule l1 = Some rest ∧ startTime l1 = Some (now - time).
Proof.
  intros Hp Hs H1. unfold ctx.step in H1. rewrite Hs, Hp in H1.
  destruct (negb _); [done|]. destruct (num_gt _ _); [done|].
  injection H1 as <-. split; [done|]. cbn [startTime set_startTime].
  change (startTime_num (set_schedule (Some rest) l)) with (startTime_num l).
  f_equal. lia.
Qed.

(** X11. With a numeric tolerance, a [step] that returns leaves
    [startTime] at the time of the call minus the expected time of the
    step, so the next step is timed from this one: it passes the timing
    check exactly when the time between the two calls differs from the
    time between the two expected steps by at most the tolerance. *)
Theorem steps_are_timed_from_the_previous_step
    (h : schedule_object) (tol : Z) (now1 now2 : Z) (x1 x2 : list JsVal)
    (l l1 : locals) (time1 time2 : Z) (value1 value2 : list JsVal)
    (rest : list sched_step) :
  truthy (propagate h) = true →
  tollerance h = JNum tol →
  schedule l = Some ((time1, value1) :: (time2, value2) :: rest) →
  ctx.step h now1 x1 l = (l1, Normal) →
  isEqual (JArr value2) (JArr x2) = true →
  startTime l1 = Some (now1 - time1)
  ∧ ((ctx.step h now2 x2 l1).2 = Normal
     ↔ Z.abs ((now2 - now1) - (time2 - time1)) ≤ tol).
Proof.
  intros Hp Ht Hs H1 He2.
  destruct (step_returned _ _ _ _ _ _ _ _ Hp Hs H1) as [Hs1 Hst].
  split; [done|].
  unfold ctx.step, startTime_num. rewrite Hs1, Hst, He2, Ht, Hp.
  cbn [negb default]. unfold num_gt. cbn [ToNumber].
  replace (now2 - (now1 - time1) - time2)
    with (now2 - now1 - (time2 - time1)) by lia.
  destruct (tol <? _) eqn:E; cbn [snd].
  - apply Z.ltb_lt in E. unfold id in E. split; [done|intros; lia].
  - apply Z.ltb_ge in E. unfold id in E. split; [intros _; lia|done].
Qed.

(** X12. Every [step] call takes one expected step off the schedule,
    whether it returns or throws: after [n] calls the schedule is the
    declared one without its first [n] steps, and once there have been
    as many calls as steps, every further call throws "no steps left". *)
Theorem every_step_call_takes_one_step
    (h : schedule_object) (observed : list (Z * list JsVal)) (l : locals)
    (steps : list sched_step) :
  schedule l = Some steps →
  schedule (take_steps h observed l) = Some (drop (length observed) steps)
  ∧ ((length steps ≤ length observed)%nat →
     ∀ now x, ∃ err,
       (ctx.step h now x (take_steps h observed l)).2 = Thrown err
       ∧ get_prop "message" err = JStr "no steps left").
Proof.
  intros Hs.
  assert (Hdrop : schedule (take_steps h observed l)
                  = Some (drop (length observed) steps)).
  { revert l steps Hs. unfold take_steps.
    induction observed as [|o obs IH]; intros l steps Hs; [done|].
    cbn [fold_left length]. rewrite (IH _ (tail steps)).
    - destruct steps; cbn [tail]; [by rewrite drop_nil|done].
    - by rewrite step_schedule, Hs. }
  split; [done|]. intros Hlen now x.
  rewrite drop_ge in Hdrop by done.
  unfold ctx.step. rewrite Hdrop. eexists. split; [done|]. done.
Qed.
End ScheduleFacts.

(** ** More about one execution *)

Section ExecutionFacts.
Context `{Platform}.

Local Abbreviation after := (apply_event invoke settle ctx.test handleError).

Lemma duration_view e fr :
  duration (vars (after e fr)) = duration_event (duration (vars fr)) e.
Proof.
  destruct e as [[c|q]| |]; cbn; try reflexivity.
  - destruct c; cbn; try reflexivity;
      unfold ctx.step, ctx.ok, ctx.throwsNot, ctx.throwsNotAsync, ctx.throws,
        ctx.throwsWith, ctx.equal;
      repeat match goal with
             | |- context [match ?x with _ => _ end] => destruct x
             | |- context [if ?b then _ else _] => destruct b
             end; reflexivity.
  - destruct q; cbn;
      unfold ctx.throwsNotAsync_rest, ctx.throwsAsync_rest,
        ctx.throwsWithAsync_rest;
      repeat match goal with
             | |- context [match ?x with _ => _ end] => destruct x
             end; reflexivity.
Qed.

(** X13. The race is against [timeout(duration)] with the duration
    that the body had set when it returned its promise: the argument of
    its last [timeout] call until then, 500 without one. A [timeout]
    call that the body makes later does not change the race. *)
Theorem race_uses_the_duration_at_return
    (b : body) (r : TestRunner) (fr1 : frame) (a : async_body call pending)
    (evs : list (event call pending)) :
  run_sync invoke ctx.test b (enter r) = (fr1, Returned (Promise a), evs) →
  duration (vars fr1) = fold_left duration_event evs (JNum 500)
  ∧ (∀ fr2 evs',
       run_async invoke settle ctx.test handleError a fr1
       = (fr2, TimedOut, evs') →
       (run_callback b (enter r)).1.2
       = timeout (fold_left duration_event evs (JNum 500))).
Proof.
  intros Hs.
  assert (Hd : duration (vars fr1) = fold_left duration_event evs (JNum 500)).
  { pose proof (run_sync_events invoke settle ctx.test handleError b (enter r))
      as Hev.
    rewrite Hs in Hev. cbn [fst snd] in Hev. rewrite Hev.
    by rewrite (fold_view invoke settle ctx.test handleError
                  (fun fr => duration (vars fr)) duration_event duration_view). }
  split; [done|]. intros fr2 evs' Ha.
  unfold run_callback. rewrite Hs. cbn [await_race]. rewrite Ha.
  cbn [fst snd]. by rewrite Hd.
Qed.

(** X14. The count check is [!==] against what [expect] was given:
    when the body has completed after [expect(v)] and [m] counted
    assertion calls, the check passes exactly when [v] is [null] or the
    number [m]. So [expect(null)] switches the check off, and after
    [expect()] or [expect('2')] it fails whatever the count is. *)
Theorem count_check_is_strict
    (b : body) (r : TestRunner) (fr : frame) (v : JsVal)
    (evs pre post : list (event call pending)) :
  run_callback b (enter r) = (fr, Normal, evs) →
  evs = pre ++ EOp (Invoke (Expect v)) :: post →
  forallb (fun e => negb (is_expect e)) post = true →
  (count_check (vars fr) = None ↔ v = JNull ∨ v = JNum (assertions post)).
Proof.
  intros E -> Hpost.
  pose proof (run_callback_counts b r) as Hc. rewrite E in Hc. cbn in Hc.
  rewrite fold_left_app in Hc. cbn [fold_left count_event] in Hc.
  rewrite fold_count_event_after_expect in Hc by done.
  injection Hc as Hce Hca. rewrite Z.add_0_l in Hca.
  unfold count_check. rewrite Hce, Hca.
  destruct v as [| |x|n|s|xs|ps|ps]; cbn;
    try (split; [done|intros [?|?]; done]).
  - split; [auto|done].
  - destruct (assertions post =? n) eqn:En; cbn.
    + apply Z.eqb_eq in En as ->. split; auto.
    + apply Z.eqb_neq in En. split; [done|]. intros [?|[= ->]]; done.
Qed.

(** X15. A body that completes while nothing reaches the capture hook,
    the count check passes and no step is left, ends with the error
    [null], and [runTests] prints its name alone and counts no
    failure. *)
Theorem clean_run_passes
    (name : string) (b : body) (r : TestRunner) (p : process) (fr : frame)
    (evs : list (event call pending)) :
  run_callback b (enter r) = (fr, Normal, evs) →
  hooks evs = [] →
  count_check (vars fr) = None →
  schedule_check (vars fr) = None →
  (runTest (Some b) r p).2 = Outcome JNull (shouldSortKeys (vars fr))
  ∧ reported_as_passed name (Some b) r p.
Proof.
  intros E Hh Hc Hs.
  pose proof (run_callback_error b r) as He. rewrite E in He.
  cbn [fst snd] in He. rewrite Hh in He.
  change (first_wins []) with JNull in He.
  assert (Ho : (runTest (Some b) r p).2 = Outcome JNull (shouldSortKeys (vars fr))).
  { rewrite runTest_unfold. unfold try_block. rewrite E. cbn [fst snd].
    unfold post_checks. rewrite Hc, Hs. cbn. by rewrite He. }
  split; [done|].
  unfold reported_as_passed. rewrite iteration_runner, iteration_console.
  cbn zeta. rewrite Ho. cbn [outcome_error truthy]. split; [|done].
  by rewrite runTest_this.
Qed.
End ExecutionFacts.

(** ** Nested registrations *)

Section NestedOrder.
Context `{Platform}.

Lemma test_names_registered (ts : list (string * option body)) :
  test_names (rev (map (fun t => ItemTest t.1 t.2) ts)) = rev (map fst ts).
Proof.
  unfold test_names. induction ts as [|t ts IH]; [done|].
  cbn [map rev]. by rewrite omap_app, IH.
Qed.

(** X16. [test] unshifts: the tests that a body registers run after it
    and before everything that was queued, the one registered last
    first. *)
Theorem registered_tests_run_last_first
    (name : string) (callback : option body) (rest : list item)
    (r : TestRunner) (p : process) :
  stack r = ItemTest name callback :: rest →
  ∃ r' p' ran,
    runTests r p = Some (r', p')
    ∧ executed p' = executed p ++ name :: ran
    ∧ sublist
        (rev (map fst
                (registered (try_block callback (enter (set_stack rest r))).2))
           ++ test_names rest) ran.
Proof.
  intros E.
  destruct (drain_total (stack_weight (stack r)) r p) as [[r1 p1] Hd]; [done|].
  assert (Hdr : drained r p r1 p1) by by exists (stack_weight (stack r)).
  apply (drained_cons _ _ _ _ _ _ E) in Hdr.
  pose proof (iteration_executed (ItemTest name callback) (set_stack rest r) p)
    as He.
  assert (Hs : stack (iteration (ItemTest name callback) (set_stack rest r) p).1
               = rev (map (fun t => ItemTest t.1 t.2)
                        (registered
                           (try_block callback (enter (set_stack rest r))).2))
                 ++ rest).
  { rewrite iteration_runner. cbn zeta. rewrite runTest_this.
    by destruct (truthy _). }
  rewrite <- (set_stack_same (iteration _ _ _).1) in Hdr.
  apply drained_in_order in Hdr as (ran & Hran & Hsub).
  exists (after_loop r1 p1).1, (after_loop r1 p1).2, ran.
  unfold runTests. rewrite Hd, <- surjective_pairing, after_loop_executed.
  split; [done|]. split.
  - by rewrite Hran, He, <- app_assoc.
  - rewrite Hs in Hsub. unfold test_names in Hsub. rewrite omap_app in Hsub.
    fold (test_names rest) in Hsub.
    change (omap _ (rev ?l)) with (test_names (rev l)) in Hsub.
    by rewrite test_names_registered in Hsub.
Qed.
End NestedOrder.

(** ** The asynchronous assertions *)

Section AsyncMethods.
Context `{Platform}.

(** X17. The [async] assertions never throw at the call: they return
    a promise. Of the promises of [throwsAsync(cb)] and
    [throwsNotAsync(cb)] exactly one fulfils: the first when [cb] throws
    or its promise rejects, the second otherwise. When [throwsNotAsync]
    rejects, the sort flag is its [sort] argument, whether [cb] threw at
    once or rejected later. *)
Theorem async_assertions_reject_but_never_throw
    (cb assert : thunk) (info : info_t) (sort : JsVal) (l : locals) :
  (ctx.throwsNotAsync cb info sort l).2 = Normal
  ∧ (ctx.throwsAsync cb info sort l).2 = Normal
  ∧ (ctx.throwsWithAsync cb assert info sort l).2 = Normal
  ∧ ((ctx.throwsAsync_rest cb info sort l).2 = Normal
     ↔ (ctx.throwsNotAsync_rest cb info sort l).2 ≠ Normal)
  ∧ ((ctx.throwsAsync_rest cb info sort l).2 = Normal
     ↔ ∃ e, result cb = CbThrows e ∨ result cb = CbRejects e)
  ∧ ((ctx.throwsNotAsync_rest cb info sort l).2 ≠ Normal →
     shouldSortKeys
       (ctx.throwsNotAsync_rest cb info sort
          (ctx.throwsNotAsync cb info sort l).1).1
     = default_param sort (JBool false)).
Proof.
  unfold ctx.throwsNotAsync, ctx.throwsAsync, ctx.throwsWithAsync,
    ctx.throwsAsync_rest, ctx.throwsNotAsync_rest, caught_await.
  destruct (result cb) as [v| |e|e]; cbn; repeat split; try done; eauto;
    try (by intros [e' [?|?]]); try (by intros ?).
Qed.
End AsyncMethods.

(** ** The merge rule of [src/index.js] *)

Section LegacyFacts.
Context `{Platform}.

Local Abbreviation legacy_after :=
  (apply_event Legacy.invoke Legacy.settle Legacy.ctx.test Legacy.handleError).

Lemma legacy_error_view e fr :
  Legacy.error (Legacy.vars (legacy_after e fr))
  = legacy_error_event (Legacy.error (Legacy.vars fr)) e.
Proof.
  destruct e as [[c|q]| |]; cbn; try reflexivity.
  - destruct c; cbn; try reflexivity;
      unfold Legacy.ctx.step, Legacy.ctx.ok, Legacy.ctx.assert,
        Legacy.ctx.equal;
      repeat match goal with
             | |- context [match ?x with _ => _ end] => destruct x
             | |- context [if ?b then _ else _] => destruct b
             end; reflexivity.
  - destruct q; cbn; unfold Legacy.ctx.throws_rest.
    by destruct (caught_await cb).
Qed.

Lemma fold_legacy_error_event evs : ∀ a,
  fold_left legacy_error_event evs a = fold_left js_or (hooks evs) a.
Proof.
  induction evs as [|[o|n cb|v] evs IH]; intros a; cbn; auto.
Qed.

Lemma legacy_try_block_events h b fr p :
  (Legacy.try_block h (Some b) fr p).1.1.1
  = fold_left (fun s e => legacy_after e s)
      (Legacy.try_block h (Some b) fr p).2 fr.
Proof.
  unfold Legacy.try_block.
  pose proof (run_sync_events Legacy.invoke Legacy.settle Legacy.ctx.test
                Legacy.handleError b fr) as Hs.
  destruct (run_sync Legacy.invoke Legacy.ctx.test b fr)
    as [[fr1 [promise|v]] evs]; cbn [fst snd] in Hs; [|by cbn].
  unfold Legacy.await_race. destruct promise as [v|a].
  { destruct (truthy v); cbn [fst snd]; by rewrite app_nil_r. }
  pose proof (run_async_events Legacy.invoke Legacy.settle Legacy.ctx.test
                Legacy.handleError a fr1) as Ha.
  destruct (run_async _ _ _ _ a fr1) as [[fr2 [|v|]] evs'];
    cbn [fst snd] in Ha; try destruct (timeout _); cbn [fst snd];
    by rewrite fold_left_app, <- Hs.
Qed.

Lemma truthy_fold_js_or vs : ∀ a,
  truthy (fold_left js_or vs a) = truthy a || existsb truthy vs.
Proof.
  induction vs as [|v vs IH]; intros a; cbn [fold_left existsb].
  - by rewrite orb_false_r.
  - rewrite IH. unfold js_or. destruct (truthy a) eqn:Ea; [by rewrite Ea|done].
Qed.

(** X18. In [src/index.js] both [handleError] and the [catch] clause do
    [error = error || err]: the error that [runTest] resolves to is the
    first truthy value among the values delivered to the hook and the
    exception that ends the [try] block, in this order, and the last of
    them when none is truthy. So it is truthy exactly when one of them
    is: a falsy error is replaced by whatever comes after it. *)
Theorem legacy_error_is_the_first_truthy
    (callback : option Legacy.body) (g : Legacy.globals) (p : process) :
  let g1 := Legacy.set_count_tests (Legacy.count_tests g + 1) g in
  let t := Legacy.try_block (Legacy.count_tests g1) callback
             (Legacy.Frame Legacy.initial_locals g1) p in
  (Legacy.runTest callback g p).2 = first_truthy (hooks t.2 ++ raised t.1.2)
  ∧ truthy (Legacy.runTest callback g p).2
    = existsb truthy (hooks t.2 ++ raised t.1.2).
Proof.
  cbn zeta.
  set (g1 := Legacy.set_count_tests (Legacy.count_tests g + 1) g).
  assert (Hfirst :
    (Legacy.runTest callback g p).2
    = first_truthy
        (hooks (Legacy.try_block (Legacy.count_tests g1) callback
                  (Legacy.Frame Legacy.initial_locals g1) p).2
         ++ raised (Legacy.try_block (Legacy.count_tests g1) callback
                      (Legacy.Frame Legacy.initial_locals g1) p).1.2)).
  { destruct callback as [b|]; [|done].
    unfold Legacy.runTest. fold g1.
    pose proof (legacy_try_block_events (Legacy.count_tests g1) b
                  (Legacy.Frame Legacy.initial_locals g1) p) as Hev.
    destruct (Legacy.try_block (Legacy.count_tests g1) (Some b)
                (Legacy.Frame Legacy.initial_locals g1) p)
      as [[[fr p1] c] evs].
    cbn [fst snd] in *.
    assert (He : Legacy.error (Legacy.vars fr) = first_truthy (hooks evs)).
    { rewrite Hev.
      rewrite (fold_view Legacy.invoke Legacy.settle Legacy.ctx.test
                 Legacy.handleError
                 (fun fr => Legacy.error (Legacy.vars fr))
                 legacy_error_event legacy_error_view).
      apply fold_legacy_error_event. }
    unfold first_truthy. rewrite fold_left_app. fold (first_truthy (hooks evs)).
    destruct c as [|v]; cbn; by rewrite He. }
  split; [done|]. rewrite Hfirst. unfold first_truthy.
  by rewrite truthy_fold_js_or.
Qed.
End LegacyFacts.

(** ** The preconditions hold on concrete inputs *)

Lemma steps_are_timed_from_the_previous_step_witness :
  startTime (ctx.step (H:=node) default_schedule 1005 [JStr "x"] started).1
  = Some (1005 - 0)
  ∧ ((ctx.step (H:=node) default_schedule 1100 [JStr "y"]
        (ctx.step (H:=node) default_schedule 1005 [JStr "x"] started).1).2
     = Normal
     ↔ Z.abs ((1100 - 1005) - (100 - 0)) ≤ 20).
Proof.
  apply (steps_are_timed_from_the_previous_step (H:=node) default_schedule 20
           1005 1100 [JStr "x"] [JStr "y"] started
           (ctx.step (H:=node) default_schedule 1005 [JStr "x"] started).1
           0 100 [JStr "x"] [JStr "y"] []);
    vm_compute; reflexivity.
Defined.

Lemma every_step_call_takes_one_step_witness :
  schedule
    (take_steps (H:=node) default_schedule
       [(1000, [JStr "x"]); (1300, [JStr "y"])] started)
  = Some (drop 2 [(0, [JStr "x"]); (100, [JStr "y"])])
  ∧ ∃ err,
      (ctx.step (H:=node) default_schedule 1400 [JStr "z"]
         (take_steps (H:=node) default_schedule
            [(1000, [JStr "x"]); (1300, [JStr "y"])] started)).2
      = Thrown err
      ∧ get_prop "message" err = JStr "no steps left".
Proof.
  destruct (every_step_call_takes_one_step (H:=node) default_schedule
              [(1000, [JStr "x"]); (1300, [JStr "y"])] started
              [(0, [JStr "x"]); (100, [JStr "y"])] eq_refl) as [Hs Hleft].
  split; [exact Hs|].
  apply (Hleft (le_n 2) 1400 [JStr "z"]).
Defined.

Lemma race_uses_the_duration_at_return_witness :
  duration
    (vars (run_sync (invoke (H:=node)) ctx.test sets_timeout_and_hangs
             (enter new_TestRunner)).1.1)
  = JNum 100
  ∧ (run_callback (H:=node) sets_timeout_and_hangs (enter new_TestRunner)).1.2
    = timeout (Platform:=node) (JNum 100).
Proof.
  destruct (race_uses_the_duration_at_return (H:=node) sets_timeout_and_hangs
              new_TestRunner
              (run_sync (invoke (H:=node)) ctx.test sets_timeout_and_hangs
                 (enter new_TestRunner)).1.1
              ATimer [EOp (Invoke (Timeout (JNum 100)))] eq_refl)
    as [Hd Hrace].
  split; [exact Hd|].
  exact (Hrace _ [] eq_refl).
Defined.

Lemma count_check_is_strict_witness :
  count_check
    (vars (run_callback (H:=node) two_assertions (enter new_TestRunner)).1.1)
  = None
  ↔ JNum 2 = JNull
    ∨ JNum 2
      = JNum (assertions
                [EOp (Invoke (Ok (JBool true) None JUndefined));
                 EOp (Invoke (Equal (JNum 1) (JNum 1) None JUndefined))]).
Proof.
  apply (count_check_is_strict (H:=node) two_assertions new_TestRunner
           (run_callback (H:=node) two_assertions (enter new_TestRunner)).1.1
           (JNum 2)
           (run_callback (H:=node) two_assertions (enter new_TestRunner)).2
           []
           [EOp (Invoke (Ok (JBool true) None JUndefined));
            EOp (Invoke (Equal (JNum 1) (JNum 1) None JUndefined))]);
    vm_compute; reflexivity.
Defined.

Lemma clean_run_passes_witness :
  (runTest (H:=node) (Some two_assertions) new_TestRunner new_process).2
  = Outcome JNull
      (shouldSortKeys
         (vars (run_callback (H:=node) two_assertions
                  (enter new_TestRunner)).1.1))
  ∧ reported_as_passed (H:=node) "two assertions" (Some two_assertions)
      new_TestRunner new_process.
Proof.
  apply (clean_run_passes (H:=node) "two assertions" two_assertions
           new_TestRunner new_process
           (run_callback (H:=node) two_assertions (enter new_TestRunner)).1.1
           (run_callback (H:=node) two_assertions (enter new_TestRunner)).2);
    vm_compute; reflexivity.
Defined.

Lemma registered_tests_run_last_first_witness :
  ∃ r' p' ran,
    runTests (H:=node) runner_A_B new_process = Some (r', p')
    ∧ executed p' = executed new_process ++ "A" :: ran
    ∧ sublist
        (rev (map fst
                (registered
                   (try_block (H:=node) (Some registers_nested)
                      (enter
                         (set_stack [ItemTest "B" (Some two_assertions)]
                            runner_A_B))).2))
           ++ test_names [ItemTest "B" (Some two_assertions)]) ran.
Proof.
  apply (registered_tests_run_last_first (H:=node) "A" (Some registers_nested)
           [ItemTest "B" (Some two_assertions)] runner_A_B new_process).
  reflexivity.
Defined.
